(** * pubmate: identifier minting, graph cleaning and assertion splitting

    A shallow embedding of [src/pubmate/mint.py] and [src/pubmate/rdfcleaner.py],
    of the commands built on them ([cli/mint.py], [cli/cleanrdf.py],
    [cli/yamlconcat.py]) and of the publishing loop of
    [src/pubmate/rdf2nanopub.py], with the properties their specification
    states about them and further properties read off the code.

    Conventions of the embedding.
    - A Python [str] is a [string]; every character stands for the code point
      of the same number (code points below 256).
    - A Python [int] is a [Z].
    - A raised exception is the [Raise] case of [result]; the exception keeps
      its Python class and the values its message interpolates.
    - Mutable objects are passed as explicit state. *)

From Stdlib Require Import ZArith Ascii String DecimalString.
From stdpp Require Import gmap strings list fin_sets sorting.

(** [set_solver] clears hypotheses by name and warns when one is absent. *)
Set Warnings "-clear-no-such-hyp".

(** ** Exceptions *)

(** What [getattr] finds on a plain [dict]: one of the members of the [dict]
    type itself, named by [member]. *)
Inductive pyattr :=
  | DictMember (member : string).

Inductive exn :=
  | ValueError (msg : string)
  | NotImplementedError
  | TypeError (msg : string)
  | AttributeError (msg : string)
  (** [RuntimeError shown n]: "Could not generate a unique identifier for
      '{shown}' after {n} attempts". *)
  | RuntimeError (shown : pyattr) (max_attempts : Z).

Inductive result (A : Type) :=
  | Ok (a : A)
  | Raise (e : exn).
Arguments Ok {A} a.
Arguments Raise {A} e.

(** ** Python string operations *)
Module Py.

(** [len(s)] *)
Definition len (s : string) : nat := String.length s.

(** [s.startswith(p)] *)
Fixpoint startswith (s p : string) {struct p} : bool :=
  match p, s with
  | EmptyString, _ => true
  | String _ _, EmptyString => false
  | String a p', String b s' => if Ascii.eqb a b then startswith s' p' else false
  end.

(** [s[n:]] *)
Fixpoint drop (n : nat) (s : string) : string :=
  match n, s with
  | O, _ => s
  | S _, EmptyString => EmptyString
  | S n', String _ s' => drop n' s'
  end.

(** [s[:n]] *)
Fixpoint take (n : nat) (s : string) : string :=
  match n, s with
  | O, _ => EmptyString
  | S _, EmptyString => EmptyString
  | S n', String a s' => String a (take n' s')
  end.

(** [s.endswith(p)] *)
Definition endswith (s p : string) : bool :=
  (len p <=? len s)%nat && String.eqb (drop (len s - len p) s) p.

(** [c in s] for a single character [c] *)
Fixpoint contains (c : ascii) (s : string) : bool :=
  match s with
  | EmptyString => false
  | String a s' => Ascii.eqb a c || contains c s'
  end.

(** [s.split(c)[-1]]: what follows the last [c], all of [s] without one. *)
Fixpoint after_last (c : ascii) (s : string) : string :=
  match s with
  | EmptyString => EmptyString
  | String a s' =>
      if Ascii.eqb a c
      then after_last c s'
      else if contains c s' then after_last c s' else s
  end.

(** [s.split(c, 1)]: [None] when [c] does not occur, else the parts before
    and after its first occurrence. *)
Fixpoint split_first (c : ascii) (s : string) : option (string * string) :=
  match s with
  | EmptyString => None
  | String a s' =>
      if Ascii.eqb a c then Some (EmptyString, s')
      else match split_first c s' with
           | Some (l, r) => Some (String a l, r)
           | None => None
           end
  end.

(** The character class [[0-9a-f]]. *)
Definition is_hex (c : ascii) : bool :=
  let n := N_of_ascii c in
  ((48 <=? n) && (n <=? 57) || (97 <=? n) && (n <=? 102))%N.

Fixpoint all_hex (s : string) : bool :=
  match s with
  | EmptyString => true
  | String a s' => is_hex a && all_hex s'
  end.

(** [bool(re.match("^[0-9a-f]{n}$", s))]. The pattern consumes [n]
    characters of the class; [$] then matches at the end of the string and
    also just before a newline that ends the string. *)
Fixpoint match_hex (n : nat) (s : string) : bool :=
  match n, s with
  | O, EmptyString => true
  | O, String c EmptyString => Ascii.eqb c "010"%char
  | O, String _ (String _ _) => false
  | S _, EmptyString => false
  | S n', String a s' => is_hex a && match_hex n' s'
  end.

(** ['%0nx' % x] for [0 <= x < 16^n]: [n] lowercase hexadecimal digits,
    most significant first. *)
Definition hexdigit (d : Z) : ascii :=
  ascii_of_N (Z.to_N (if (d <? 10)%Z then 48 + d else 87 + d)%Z).

Fixpoint hex_go (n : nat) (x : Z) (acc : string) : string :=
  match n with
  | O => acc
  | S n' => hex_go n' (x / 16)%Z (String (hexdigit (x mod 16)%Z) acc)
  end.

Definition hex (n : nat) (x : Z) : string := hex_go n x EmptyString.

(** [str(z)] for an [int]. *)
Definition str_of_int (z : Z) : string := NilZero.string_of_int (Z.to_int z).

(** [sep.join(l)] *)
Fixpoint join (sep : string) (l : list string) : string :=
  match l with
  | [] => EmptyString
  | [x] => x
  | x :: l' => x +:+ sep +:+ join sep l'
  end.

(** The one-character string of a line feed. *)
Definition newline : string := String "010"%char EmptyString.

(** [s.lower()]: the letters [A-Z] and, among the code points below 256,
    the capital letters of Latin-1 (all of 192 to 222 but the
    multiplication sign). *)
Definition lower_char (c : ascii) : ascii :=
  let n := N_of_ascii c in
  if ((65 <=? n) && (n <=? 90) || (192 <=? n) && (n <=? 222) && negb (n =? 215))%N
  then ascii_of_N (n + 32) else c.

Fixpoint lower (s : string) : string :=
  match s with
  | EmptyString => EmptyString
  | String a s' => String (lower_char a) (lower s')
  end.

(** The character classes [[a-zA-Z]] and [[a-zA-Z0-9]]. *)
Definition is_alpha (c : ascii) : bool :=
  let n := N_of_ascii c in
  ((65 <=? n) && (n <=? 90) || (97 <=? n) && (n <=? 122))%N.

Definition is_alnum (c : ascii) : bool :=
  let n := N_of_ascii c in
  is_alpha c || ((48 <=? n) && (n <=? 57))%N.

End Py.

(** ** SHA-256 (FIPS 180-4), as [hashlib.sha256(...).hexdigest()] computes it *)
Module Sha256.
Local Open Scope Z_scope.

Definition wrap (x : Z) : Z := Z.land x (Z.ones 32).
Definition add (x y : Z) : Z := wrap (x + y).
Definition rotr (n x : Z) : Z :=
  Z.lor (Z.shiftr x n) (wrap (Z.shiftl x (32 - n))).
Definition shr (n x : Z) : Z := Z.shiftr x n.

Definition Ch (x y z : Z) : Z :=
  Z.lxor (Z.land x y) (Z.land (wrap (Z.lnot x)) z).
Definition Maj (x y z : Z) : Z :=
  Z.lxor (Z.lxor (Z.land x y) (Z.land x z)) (Z.land y z).
Definition Sigma0 (x : Z) : Z := Z.lxor (Z.lxor (rotr 2 x) (rotr 13 x)) (rotr 22 x).
Definition Sigma1 (x : Z) : Z := Z.lxor (Z.lxor (rotr 6 x) (rotr 11 x)) (rotr 25 x).
Definition sigma0 (x : Z) : Z := Z.lxor (Z.lxor (rotr 7 x) (rotr 18 x)) (shr 3 x).
Definition sigma1 (x : Z) : Z := Z.lxor (Z.lxor (rotr 17 x) (rotr 19 x)) (shr 10 x).

(** The constants are the first 32 bits of the fractional parts of the
    square roots (initial hash value) and cube roots (round constants) of
    the first primes. *)
Definition is_prime (p : Z) : bool :=
  (1 <? p) && forallb (fun d => negb (p mod d =? 0)) (seqZ 2 (Z.sqrt p - 1)).

Definition primes : list Z :=
  Eval vm_compute in List.filter is_prime (seqZ 2 310).

(** Largest [r] below [2^bits] with [r^3 <= x], found bit by bit. *)
Fixpoint cbrt_go (bits : nat) (x r : Z) : Z :=
  match bits with
  | O => r
  | S b =>
      let r' := r + Z.shiftl 1 (Z.of_nat b) in
      cbrt_go b x (if r' * r' * r' <=? x then r' else r)
  end.

Definition frac_sqrt (p : Z) : Z := wrap (Z.sqrt (p * 2 ^ 64)).
Definition frac_cbrt (p : Z) : Z := wrap (cbrt_go 36 (p * 2 ^ 96) 0).

Definition H0 : list Z := Eval vm_compute in map frac_sqrt (take 8 primes).
Definition K : list Z := Eval vm_compute in map frac_cbrt (take 64 primes).

(** Padding: a one bit, zeros up to 56 modulo 64 bytes, the bit length as
    a 64-bit big-endian integer. *)
Definition be_bytes (n : nat) (x : Z) : list Z :=
  map (fun i => Z.land (Z.shiftr x (8 * Z.of_nat i)) 255) (rev (seq 0 n)).

Definition pad (msg : list Z) : list Z :=
  let l := Z.of_nat (length msg) in
  msg ++ [128] ++ replicate (Z.to_nat ((55 - l) mod 64)) 0 ++ be_bytes 8 (8 * l).

Definition be_word (bs : list Z) : Z :=
  fold_left (fun acc b => Z.lor (Z.shiftl acc 8) b) bs 0.

Fixpoint chunks {A} (fuel size : nat) (l : list A) : list (list A) :=
  match fuel, l with
  | O, _ | _, [] => []
  | S f, _ => take size l :: chunks f size (drop size l)
  end.

Definition words_of_block (block : list Z) : list Z :=
  map be_word (chunks 16 4 block).

(** Message schedule: sixteen words of the block, then forty-eight derived
    ones. *)
Definition schedule_step (W : list Z) : list Z :=
  let t := length W in
  let w i := nth (t - i) W 0 in
  W ++ [add (add (add (sigma1 (w 2%nat)) (w 7%nat)) (sigma0 (w 15%nat))) (w 16%nat)].

Definition schedule (block : list Z) : list Z :=
  Nat.iter 48 schedule_step (words_of_block block).

Record state := State { a : Z; b : Z; c : Z; d : Z; e : Z; f : Z; g : Z; h : Z }.

Definition round (s : state) (kw : Z * Z) : state :=
  let T1 := add (add (add (add (h s) (Sigma1 (e s))) (Ch (e s) (f s) (g s))) (fst kw)) (snd kw) in
  let T2 := add (Sigma0 (a s)) (Maj (a s) (b s) (c s)) in
  State (add T1 T2) (a s) (b s) (c s) (add (d s) T1) (e s) (f s) (g s).

Definition compress (s : state) (block : list Z) : state :=
  let s' := fold_left round (zip K (schedule block)) s in
  State (add (a s) (a s')) (add (b s) (b s')) (add (c s) (c s')) (add (d s) (d s'))
        (add (e s) (e s')) (add (f s) (f s')) (add (g s) (g s')) (add (h s) (h s')).

Definition initial : state :=
  let i n := nth n H0 0 in
  State (i 0%nat) (i 1%nat) (i 2%nat) (i 3%nat) (i 4%nat) (i 5%nat) (i 6%nat) (i 7%nat).

Definition digest (msg : list Z) : state :=
  let p := pad msg in
  fold_left compress (chunks (length p) 64 p) initial.

Definition hexstate (s : state) : string :=
  Py.hex 8 (a s) +:+ Py.hex 8 (b s) +:+ Py.hex 8 (c s) +:+ Py.hex 8 (d s) +:+
  Py.hex 8 (e s) +:+ Py.hex 8 (f s) +:+ Py.hex 8 (g s) +:+ Py.hex 8 (h s).

(** [s.encode("utf-8")] for a string of ASCII characters: one byte each. *)
Definition bytes_of (s : string) : list Z :=
  map (fun ch => Z.of_N (N_of_ascii ch)) (list_ascii_of_string s).

(** [hashlib.sha256(bs).hexdigest()] *)
Definition hexdigest (bs : list Z) : string := hexstate (digest bs).

End Sha256.

(** ** Records and their canonical JSON text *)
Module Json.

(** The values a record read from YAML holds; [Dict] keeps the insertion
    order of a Python [dict]. Floating-point numbers are left out. *)
#[warnings="-register-all"] Inductive value :=
  | Null
  | Bool (b : bool)
  | Int (z : Z)
  | Str (s : string)
  | List (l : list value)
  | Dict (d : list (string * value)).

Definition dict := list (string * value).

Definition quote : string := String "034"%char EmptyString.
Definition backslash : string := String "092"%char EmptyString.

(** [json.dumps] with [ensure_ascii] (the default): the quote, the
    backslash and every character outside [' '..'~'] are escaped. *)
Definition escape (ch : ascii) : string :=
  let n := N_of_ascii ch in
  if (n =? 34)%N then backslash +:+ quote
  else if (n =? 92)%N then backslash +:+ backslash
  else if (n =? 8)%N then backslash +:+ "b"
  else if (n =? 12)%N then backslash +:+ "f"
  else if (n =? 10)%N then backslash +:+ "n"
  else if (n =? 13)%N then backslash +:+ "r"
  else if (n =? 9)%N then backslash +:+ "t"
  else if ((32 <=? n) && (n <=? 126))%N then String ch EmptyString
  else backslash +:+ "u" +:+ Py.hex 4 (Z.of_N n).

Fixpoint escape_all (s : string) : string :=
  match s with
  | EmptyString => EmptyString
  | String ch s' => escape ch +:+ escape_all s'
  end.

Definition encode_str (s : string) : string := quote +:+ escape_all s +:+ quote.

(** [sort_keys=True]: the items in the order of [sorted], which is stable
    and compares keys by code points. *)
Fixpoint insert_item {A} (kv : string * A) (l : list (string * A)) : list (string * A) :=
  match l with
  | [] => [kv]
  | kv' :: l' =>
      if String.leb kv.1 kv'.1 then kv :: l else kv' :: insert_item kv l'
  end.

Definition sort_items {A} (l : list (string * A)) : list (string * A) :=
  foldr insert_item [] l.

(** The order of the keys, on items. *)
Definition key_le {A} (kv kv' : string * A) : Prop := String.le kv.1 kv'.1.

(** [json.dumps(v, sort_keys=True, separators=(",", ":"))]. The values of a
    dict are rendered before its items are sorted; sorting looks at keys
    only, so the text is the same. *)
Fixpoint dumps (v : value) : string :=
  match v with
  | Null => "null"
  | Bool true => "true"
  | Bool false => "false"
  | Int z => Py.str_of_int z
  | Str s => encode_str s
  | List l => "[" +:+ Py.join "," (map dumps l) +:+ "]"
  | Dict d =>
      "{" +:+
      Py.join ","
        (map (fun kv : string * string => encode_str kv.1 +:+ ":" +:+ kv.2)
             (sort_items (map (fun kv : string * value => (kv.1, dumps kv.2)) d)))
      +:+ "}"
  end.

End Json.

(** ** [mint.py]: class [IdentifierGenerator] *)
Module Mint.
Import Json.

Record IdentifierGenerator := Generator {
  namespace : string;
  type_prefix : option string;
  registered_ids : gset string
}.

(** [IdentifierGenerator(namespace, type_prefix)] *)
Definition init (namespace : string) (type_prefix : option string) : IdentifierGenerator :=
  Generator namespace type_prefix ∅.

Definition is_id_available (self : IdentifierGenerator) (identifier : string) : bool :=
  if bool_decide (identifier ∈ registered_ids self) then false else true.

Definition is_namespace_id (self : IdentifierGenerator) (key : string) : bool :=
  if Py.startswith key (namespace self) then true else false.

(** The number of hexadecimal characters of [unique_pattern]; [None] is the
    [else] branch. *)
Definition unique_pattern (method : string) : option nat :=
  if String.eqb method "uuid" then Some 8%nat
  else if String.eqb method "hash" then Some 10%nat
  else None.

Definition is_valid_id (self : IdentifierGenerator) (key method : string) : result bool :=
  if negb (Py.startswith key (namespace self)) then Ok false
  else
    let remaining := Py.drop (Py.len (namespace self)) key in
    match unique_pattern method with
    | None => Raise NotImplementedError
    | Some n =>
        match type_prefix self with
        | Some tp =>
            let expected_prefix := tp +:+ "-" in
            if negb (Py.startswith remaining expected_prefix) then Ok false
            else Ok (Py.match_hex n (Py.drop (Py.len expected_prefix) remaining))
        | None => Ok (Py.match_hex n remaining)
        end
    end.

Definition register_id (self : IdentifierGenerator) (identifier : string) : IdentifierGenerator :=
  Generator (namespace self) (type_prefix self) ({[identifier]} ∪ registered_ids self).

Definition hash_dict (data : dict) : string :=
  let canonical := dumps (Dict data) in
  Sha256.hexdigest (Sha256.bytes_of canonical).

(** [uuid.UUID(bytes=..., version=4)]: the sixteen random bytes as a
    big-endian integer, with the variant and version bits set. *)
Definition uuid4_int (random : Z) : Z :=
  let i := (random mod 2 ^ 128)%Z in
  let i := Z.land i (Z.lnot (Z.shiftl 0xc000 48)) in
  let i := Z.lor i (Z.shiftl 0x8000 48) in
  let i := Z.land i (Z.lnot (Z.shiftl 0xf000 64)) in
  Z.lor i (Z.shiftl 4 76).

(** [str(u)] for a UUID of integer [i]. *)
Definition str_uuid (i : Z) : string :=
  let hex := Py.hex 32 i in
  Py.take 8 hex +:+ "-" +:+ Py.take 4 (Py.drop 8 hex) +:+ "-" +:+
  Py.take 4 (Py.drop 12 hex) +:+ "-" +:+ Py.take 4 (Py.drop 16 hex) +:+ "-" +:+
  Py.drop 20 hex.

(** [entity[key:stop]]: a [dict] looks the slice object up as a key, and a
    slice cannot be hashed (from Python 3.12 on it can, and the lookup ends
    in a [KeyError] instead, since no record has a slice for a key). *)
Definition getitem_slice (entity : dict) (key : string) (stop : Z) : result dict :=
  Raise (TypeError "unhashable type: 'slice'").

(** The members of the [dict] type (CPython 3.11). *)
Definition dict_members : list string :=
  [ "__class__"; "__class_getitem__"; "__contains__"; "__delattr__";
    "__delitem__"; "__dir__"; "__doc__"; "__eq__"; "__format__"; "__ge__";
    "__getattribute__"; "__getitem__"; "__getstate__"; "__gt__"; "__hash__";
    "__init__"; "__init_subclass__"; "__ior__"; "__iter__"; "__le__";
    "__len__"; "__lt__"; "__ne__"; "__new__"; "__or__"; "__reduce__";
    "__reduce_ex__"; "__repr__"; "__reversed__"; "__ror__"; "__setattr__";
    "__setitem__"; "__sizeof__"; "__str__"; "__subclasshook__"; "clear";
    "copy"; "fromkeys"; "get"; "items"; "keys"; "pop"; "popitem";
    "setdefault"; "update"; "values" ].

(** [getattr(entity, name)]: attribute lookup never consults the items of
    the dict. *)
Definition getattr (entity : dict) (name : string) : result pyattr :=
  if bool_decide (name ∈ dict_members) then Ok (DictMember name)
  else Raise (AttributeError ("'dict' object has no attribute '" +:+ name +:+ "'")).

Section Generate.
(** [urandom k]: the [k]-th draw of [os.urandom(16)] of the process, as a
    big-endian integer. *)
Variable urandom : nat → Z.

(** The state a call works on: the generator object and the number of
    draws made so far. *)
Record world := World { self : IdentifierGenerator; drawn : nat }.

Definition unique_part (method : string) (entity : dict) (attempts : Z) (k : nat)
  : result string * nat :=
  if String.eqb method "uuid" then
    (Ok (Py.take 8 (str_uuid (uuid4_int (urandom k)))), S k)
  else if String.eqb method "hash" then
    match (if (0 <? attempts)%Z
           then getitem_slice entity "_collision" attempts
           else Ok entity) with
    | Ok salted_entity => (Ok (Py.take 10 (hash_dict salted_entity)), k)
    | Raise e => (Raise e, k)
    end
  else
    (Raise (ValueError ("Unknown method: " +:+ method +:+
                        ". Available methods: uuid, hash, sequential, slug")), k).

Definition identifier_of (g : IdentifierGenerator) (unique : string) : string :=
  match type_prefix g with
  | None => namespace g +:+ unique
  | Some tp => namespace g +:+ tp +:+ "-" +:+ unique
  end.

(** What follows the loop: the [raise] whose message evaluates
    [getattr(entity, preflabel)] first. *)
Definition exhausted (entity : dict) (max_attempts : Z) (preflabel : string) : exn :=
  match getattr entity preflabel with
  | Ok shown => RuntimeError shown max_attempts
  | Raise e => e
  end.

(** The [while attempts < max_attempts] loop; [remaining] is
    [max_attempts - attempts], the number of iterations left. *)
Fixpoint generate_loop (entity : dict) (method : string) (check_collision : bool)
    (max_attempts : Z) (preflabel : string)
    (remaining : nat) (attempts : Z) (w : world) : result string * world :=
  match remaining with
  | O => (Raise (exhausted entity max_attempts preflabel), w)
  | S remaining' =>
      match unique_part method entity attempts (drawn w) with
      | (Raise e, k) => (Raise e, World (self w) k)
      | (Ok unique, k) =>
          let identifier := identifier_of (self w) unique in
          if check_collision then
            if is_id_available (self w) identifier
            then (Ok identifier, World (register_id (self w) identifier) k)
            else generate_loop entity method check_collision max_attempts preflabel
                   remaining' (attempts + 1)%Z (World (self w) k)
          else (Ok identifier, World (self w) k)
      end
  end.

Definition generate_id (w : world) (entity : dict) (method : string)
    (check_collision : bool) (max_attempts : Z) (preflabel : string)
  : result string * world :=
  generate_loop entity method check_collision max_attempts preflabel
    (Z.to_nat max_attempts) 0%Z w.

(** One call of a client on the generator object. *)
Inductive call :=
  | GenerateId (entity : dict) (method : string) (check_collision : bool)
               (max_attempts : Z) (preflabel : string)
  | RegisterId (identifier : string).

Definition checks_collision (c : call) : bool :=
  match c with
  | GenerateId _ _ cc _ _ => cc
  | RegisterId _ => true
  end.

(** A sequence of calls on one generator; the identifiers returned, in
    order. A call that raises returns none and leaves the generator to
    the next call. *)
Fixpoint run (calls : list call) (w : world) : list string * world :=
  match calls with
  | [] => ([], w)
  | GenerateId entity method cc max_attempts preflabel :: calls' =>
      match generate_id w entity method cc max_attempts preflabel with
      | (Ok identifier, w') =>
          let '(ids, w'') := run calls' w' in (identifier :: ids, w'')
      | (Raise _, w') => run calls' w'
      end
  | RegisterId identifier :: calls' =>
      run calls' (World (register_id (self w) identifier) (drawn w))
  end.
End Generate.

Global Arguments generate_id : simpl never.

End Mint.

(** ** [rdfcleaner.py]: graphs, the translation cleanup, the splitter *)
Module Rdf.

(** *** RDF terms and graphs, as [rdflib] holds them *)

Inductive node :=
  | URIRef (iri : string)
  | BNode (label : string).

Record literal := Literal {
  lexical : string;
  language : option string;
  datatype : option string
}.

Inductive term :=
  | Node (n : node)
  | Lit (l : literal).

(** Subject, predicate (an IRI), object. *)
Definition triple : Type := node * string * term.

Global Instance node_eq_dec : EqDecision node.
Proof. solve_decision. Defined.
Global Instance literal_eq_dec : EqDecision literal.
Proof. solve_decision. Defined.
Global Instance term_eq_dec : EqDecision term.
Proof. solve_decision. Defined.

Global Instance node_countable : Countable node.
Proof.
  refine (inj_countable'
    (λ n, match n with URIRef i => inl i | BNode l => inr l end)
    (λ x, match x with inl i => URIRef i | inr l => BNode l end) _).
  by intros [].
Defined.
Global Instance literal_countable : Countable literal.
Proof.
  refine (inj_countable'
    (λ l, (lexical l, language l, datatype l))
    (λ x, Literal x.1.1 x.1.2 x.2) _).
  by intros [].
Defined.
Global Instance term_countable : Countable term.
Proof.
  refine (inj_countable'
    (λ t, match t with Node n => inl n | Lit l => inr l end)
    (λ x, match x with inl n => Node n | inr l => Lit l end) _).
  by intros [].
Defined.

(** A [rdflib.Graph] object: its set of triples and the prefixes its
    namespace manager has bound. *)
Record Graph := MkGraph {
  triples : gset triple;
  namespaces : gmap string string
}.

Global Instance Graph_inhabited : Inhabited Graph := populate (MkGraph ∅ ∅).

(** A plain literal: no language tag, no datatype. *)
Definition plain (s : string) : literal := Literal s None None.

(** [g.add(t)] *)
Definition add (g : Graph) (t : triple) : Graph :=
  MkGraph ({[t]} ∪ triples g) (namespaces g).

(** *** add_language *)

Definition TRANSLATIONS (base_namespace : string) : string := base_namespace +:+ "translations".
Definition PROPERTY_NAME (base_namespace : string) : string := base_namespace +:+ "property_name".
Definition LANGUAGE (base_namespace : string) : string := base_namespace +:+ "language".
Definition TRANSLATED_VALUE (base_namespace : string) : string := base_namespace +:+ "translated_value".

(** What evaluating [BIND(STRLANG(?value, ?lang) AS ?literal)] does to one
    solution: binds [?literal]; or fails as an expression, which leaves
    [?literal] unbound; or raises an exception of the host language out
    of the query. *)
Inductive bind_outcome :=
  | Bound (l : literal)
  | Unbound
  | Abort (e : exn).

(** [str(x)] of a term: the IRI, the label of a blank node, the lexical
    form of a literal. *)
Definition term_str (x : term) : string :=
  match x with
  | Node (URIRef s) | Node (BNode s) => s
  | Lit l => lexical l
  end.

(** [bool(re.match("^[a-zA-Z]+(?:-[a-zA-Z0-9]+)*$", tag))], the test rdflib
    makes on the language tag of a new literal: [langtag_rest first s]
    reads [s] after one character of a subtag, the first one or a later
    one; [$] also matches just before a line feed that ends the string. *)
Fixpoint langtag_rest (first : bool) (s : string) : bool :=
  match s with
  | EmptyString => true
  | String c s' =>
      if Ascii.eqb c "-" then
        match s' with
        | String d s'' => Py.is_alnum d && langtag_rest false s''
        | EmptyString => false
        end
      else if Ascii.eqb c "010" then
        match s' with EmptyString => true | String _ _ => false end
      else (if first then Py.is_alpha c else Py.is_alnum c) && langtag_rest first s'
  end.

Definition is_valid_langtag (tag : string) : bool :=
  match tag with
  | String c s' => Py.is_alpha c && langtag_rest true s'
  | EmptyString => false
  end.

(** [bool(x)] of the language or the datatype of a literal. *)
Definition given (x : option string) : bool :=
  match x with
  | Some s => negb (String.eqb s "")
  | None => false
  end.

(** STRLANG as rdflib evaluates it: a value that is not a literal, or a
    literal with a language or a datatype, is an expression error; else the
    result is [Literal(str(value), lang=str(lang).lower())], whose
    constructor takes the empty tag for no tag and raises [ValueError] on a
    tag that is not well formed. *)
Definition Builtin_STRLANG (value lang : term) : bind_outcome :=
  match value with
  | Lit s =>
      if given (language s) || given (datatype s) then Unbound
      else
        let tag := Py.lower (term_str lang) in
        if String.eqb tag "" then Bound (plain (lexical s))
        else if is_valid_langtag tag then Bound (Literal (lexical s) (Some tag) None)
        else Abort (ValueError ("'" +:+ tag +:+ "' is not a valid language tag!"))
  | Node _ => Unbound
  end.

(** One solution of the WHERE clause of the CONSTRUCT query, before BIND. *)
Record solution := Solution {
  subject : node;
  t : node;
  predicate : string;
  lang : term;
  value : term
}.


(** The two queries are evaluated by their SPARQL 1.1 meaning, as rdflib
    evaluates them: a WHERE clause is the join of its triple patterns over
    the graph (and of the VALUES rows), evaluated in full before anything is
    added or deleted. When STRLANG raises on several solutions, which of the
    exceptions comes out depends on the order of evaluation; here it is the
    first in the order of the listing. The property names, the predicates
    and the namespace are assumed to fit the query text they are pasted
    into. *)
Section Engine.
(** The STRLANG of the query engine. *)
Variable STRLANG : term → term → bind_outcome.

(** The rows of [VALUES (?propName ?predicate)] that agree with the
    binding of [?propName]: the row of key [k] offers the plain literal
    [k]. *)
Definition values_rows (property_map : gmap string string) (propName : term) : list string :=
  '(k, v) ← map_to_list property_map;
  if decide (propName = Lit (plain k)) then [v] else [].

(** The solutions of the four triple patterns: [?subject], [?t],
    [?propName], [?lang] and [?value]. *)
Definition construct_bgp (g : gset triple) (base_namespace : string)
  : list (node * node * term * term * term) :=
  '(subject, p1, o1) ← elements g;
  match o1 with
  | Node t =>
      if decide (p1 = TRANSLATIONS base_namespace) then
        '(s2, p2, propName) ← elements g;
        if decide (s2 = t ∧ p2 = PROPERTY_NAME base_namespace) then
          '(s3, p3, lang) ← elements g;
          if decide (s3 = t ∧ p3 = LANGUAGE base_namespace) then
            '(s4, p4, value) ← elements g;
            if decide (s4 = t ∧ p4 = TRANSLATED_VALUE base_namespace) then
              [(subject, t, propName, lang, value)]
            else []
          else []
        else []
      else []
  | Lit _ => []
  end.

(** Their join with the rows of VALUES. *)
Definition construct_where (g : gset triple) (base_namespace : string)
    (property_map : gmap string string) : list solution :=
  '(subject, t, propName, lang, value) ← construct_bgp g base_namespace;
  predicate ← values_rows property_map propName;
  [Solution subject t predicate lang value].

(** The template [?subject ?predicate ?literal] filled in for every
    solution that binds [?literal]. *)
Fixpoint construct_template (sols : list solution) : result (gset triple) :=
  match sols with
  | [] => Ok ∅
  | sol :: sols' =>
      match STRLANG (value sol) (lang sol) with
      | Abort e => Raise e
      | Unbound => construct_template sols'
      | Bound l =>
          match construct_template sols' with
          | Ok c => Ok ({[ (subject sol, predicate sol, Lit l) ]} ∪ c)
          | Raise e => Raise e
          end
      end
  end.

(** [g.query(construct_query)]. With an empty map the text reads
    [VALUES (?propName ?predicate) { }], which rdflib translates to a bare
    Python list instead of a part of the algebra: the join is lazy, and
    evaluating that list for the first solution of the triple patterns
    raises [AttributeError]. *)
Definition construct_query (g : gset triple) (base_namespace : string)
    (property_map : gmap string string) : result (gset triple) :=
  if decide (property_map = ∅) then
    match construct_bgp g base_namespace with
    | [] => Ok ∅
    | _ :: _ => Raise (AttributeError "'list' object has no attribute 'name'")
    end
  else construct_template (construct_where g base_namespace property_map).

(** The solutions [(?subject, ?t, ?p, ?o)] of the DELETE query. *)
Definition delete_where (g : gset triple) (base_namespace : string)
  : list (node * node * string * term) :=
  '(subject, p1, o1) ← elements g;
  match o1 with
  | Node t =>
      if decide (p1 = TRANSLATIONS base_namespace) then
        '(s2, p, o) ← elements g;
        if decide (s2 = t) then [(subject, t, p, o)] else []
      else []
  | Lit _ => []
  end.

(** The two templates of DELETE, filled in for every solution. *)
Definition delete_template (base_namespace : string)
    (sols : list (node * node * string * term)) : gset triple :=
  list_to_set
    ('(subject, t, p, o) ← sols;
     [(subject, TRANSLATIONS base_namespace, Node t); (t, p, o)]).

(** [g.update(delete_query)] *)
Definition delete_query (g : gset triple) (base_namespace : string) : gset triple :=
  g ∖ delete_template base_namespace (delete_where g base_namespace).

Definition add_language (g : Graph) (base_namespace : string)
    (property_map : gmap string string) : result Graph :=
  if negb (Py.endswith base_namespace "/" || Py.endswith base_namespace "#") then
    Raise (ValueError "base_namespace must end with '/' or '#'")
  else
    match construct_query (triples g) base_namespace property_map with
    | Raise e => Raise e
    | Ok constructed =>
        let g := foldl add g (elements constructed) in
        Ok (MkGraph (delete_query (triples g) base_namespace) (namespaces g))
    end.

Definition clean_graph (g : Graph) (base_namespace : string)
    (property_map : gmap string string) : result Graph :=
  add_language g base_namespace property_map.
End Engine.

(** *** split_into_assertions *)

Definition subClassOf : string := "http://www.w3.org/2000/01/rdf-schema#subClassOf".

(** [g.namespace_manager.expand_curie(curie)]; [None] stands for the
    exception it raises on a text without a colon or with a prefix that is
    not bound. The prefix is what stands before the first colon, and may be
    empty. *)
Definition expand_curie (g : Graph) (curie : string) : option string :=
  match Py.split_first ":" curie with
  | Some (prefix, local) =>
      match namespaces g !! prefix with
      | Some ns => Some (ns +:+ local)
      | None => None
      end
  | None => None
  end.

(** The [try]/[except] around it. *)
Definition parent_of (g : Graph) (clss : string) : string :=
  match expand_curie g clss with
  | Some iri => iri
  | None => clss
  end.

(** The text of a node, which is what the [str] methods act on. *)
Definition node_str (n : node) : string :=
  match n with URIRef s | BNode s => s end.

Definition term_id (subclass : node) : string :=
  if Py.contains "#" (node_str subclass)
  then Py.after_last "#" (node_str subclass)
  else Py.after_last "/" (node_str subclass).

(** The objects of the program: references to graphs. The input graph and
    every assertion graph live in one heap, so that a write to one graph
    shows in whatever else refers to it. *)
Abbreviation heap := (gmap nat Graph).

Section Splitter.
(** The prefixes a new [rdflib.Graph()] starts with. *)
Variable initial_namespaces : gmap string string.
(** The order in which the store lists the triples that match a pattern.
    It comes from the history of the store (the order of insertion into its
    indexes), which a set of triples does not record: it is left open, as
    a listing of the set of matches. *)
Variable sequence : gset triple → list triple.

(** [g.triples((None, p, o))] and [g.triples((s, None, None))] *)
Definition triples_po (g : Graph) (p : string) (o : term) : list triple :=
  sequence (filter (λ x : triple, x.1.2 = p ∧ x.2 = o) (triples g)).
Definition triples_s (g : Graph) (s : node) : list triple :=
  sequence (filter (λ x : triple, x.1.1 = s) (triples g)).

(** [rdflib.Graph()] *)
Definition new_graph (h : heap) : nat * heap :=
  let r := fresh (dom h) in (r, <[r := MkGraph ∅ initial_namespaces]> h).

(** [graph.add(t)] on the object [r] refers to. *)
Definition heap_add (h : heap) (r : nat) (x : triple) : heap :=
  alter (λ g, add g x) r h.

(** The body of the inner loop for one [subclass]: the pair it yields and
    the heap it leaves. *)
Definition assertion_for (g : nat) (h : heap) (subclass : node) : (string * nat) * heap :=
  let '(assertion_graph, h) := new_graph h in
  let h := foldl (λ h x, heap_add h assertion_graph x) h (triples_s (h !!! g) subclass) in
  ((term_id subclass, assertion_graph), h).

(** The loops thread the heap; a loop reads the graph it iterates over
    when it starts. *)
Fixpoint for_subclasses (g : nat) (h : heap) (matches : list triple)
  : list (string * nat) * heap :=
  match matches with
  | [] => ([], h)
  | (subclass, _, _) :: matches' =>
      let '(yielded, h) := assertion_for g h subclass in
      let '(pairs, h) := for_subclasses g h matches' in
      (yielded :: pairs, h)
  end.

(** [all_classes] is given in the order the set is iterated in. The
    result is the sequence of pairs the generator yields when it is
    consumed to its end, with the heap at that point. *)
Fixpoint split_into_assertions (g : nat) (h : heap) (all_classes : list string)
  : list (string * nat) * heap :=
  match all_classes with
  | [] => ([], h)
  | clss :: all_classes' =>
      let parent := URIRef (parent_of (h !!! g) clss) in
      let '(pairs, h) :=
        for_subclasses g h (triples_po (h !!! g) subClassOf (Node parent)) in
      let '(pairs', h) := split_into_assertions g h all_classes' in
      (pairs ++ pairs', h)
  end.
(** The matches of a whole run: for each class in turn, the triples that
    state a subclass of its parent. *)
Definition matches_of (G : Graph) (all_classes : list string) : list triple :=
  clss ← all_classes; triples_po G subClassOf (Node (URIRef (parent_of G clss))).

(** The subjects that have an [rdfs:subClassOf] edge to [parent]. *)
Definition direct_subclasses (G : Graph) (parent : string) : gset node :=
  set_map (λ x : triple, x.1.1)
    (filter (λ x : triple, x.1.2 = subClassOf ∧ x.2 = Node (URIRef parent)) (triples G)).

(** What a sequence of pairs has to do with the matches it was made for:
    one pair per match, in order, each with a graph of its own. *)
Definition yields (h : heap) (G : Graph) (h' : heap)
    (matches : list triple) (pairs : list (string * nat)) : Prop :=
  Forall2 (λ m pr,
    pr.1 = term_id m.1.1 ∧ h !! pr.2 = None ∧
    h' !! pr.2 = Some (MkGraph (list_to_set (triples_s G m.1.1)) initial_namespaces))
  matches pairs.

(** References handed out between two heaps: new, distinct, and live at
    the end. *)
Definition handed_out (h h' : heap) (refs : list nat) : Prop :=
  NoDup refs ∧ Forall (λ a, h !! a = None ∧ is_Some (h' !! a)) refs.

End Splitter.

End Rdf.

(** ** [cli/mint.py]: the command that mints identifiers for a YAML file *)
Module MintCli.
Import Json Mint.

(** [bool(v)] *)
Definition truthy (v : value) : bool :=
  match v with
  | Null => false
  | Bool b => b
  | Int z => negb (z =? 0)%Z
  | Str s => negb (String.eqb s "")
  | List l => match l with [] => false | _ => true end
  | Dict d => match d with [] => false | _ => true end
  end.

(** [type(v).__name__] *)
Definition type_name (v : value) : string :=
  match v with
  | Null => "NoneType"
  | Bool _ => "bool"
  | Int _ => "int"
  | Str _ => "str"
  | List _ => "list"
  | Dict _ => "dict"
  end.

(** [k in d] *)
Fixpoint has_key (d : dict) (k : string) : bool :=
  match d with
  | [] => false
  | (k', _) :: d' => String.eqb k' k || has_key d' k
  end.

(** [d.get(k)], with [None] for a missing key. *)
Fixpoint get (d : dict) (k : string) : value :=
  match d with
  | [] => Null
  | (k', v) :: d' => if String.eqb k' k then v else get d' k
  end.

(** [d[k] = v]: a key that is there keeps its place, a new one goes last. *)
Fixpoint set (d : dict) (k : string) (v : value) : dict :=
  match d with
  | [] => [(k, v)]
  | (k', v') :: d' => if String.eqb k' k then (k', v) :: d' else (k', v') :: set d' k v
  end.

(** Where the command gives up. Every exception is caught at the end of
    the command, logged, and turned into [sys.exit(1)]; the cases keep which
    [raise] it was and the index its message shows. *)
Inductive failure :=
  | TargetMissing
  | TargetNotList
  | EntityNotDict (i : nat)
  | LabelMissing (i : nat)
  | Uncaught (e : exn).

Inductive run (A : Type) :=
  | Done (a : A)
  | Failed (f : failure).
Arguments Done {A} a.
Arguments Failed {A} f.

(** The test [if current_id and not force: if is_valid_id(current_id, ...)]:
    the identifier to keep, if any. [is_valid_id] calls [startswith] on its
    argument, which only a string has. *)
Definition keeps (g : IdentifierGenerator) (current_id : value) (method : string)
    (force : bool) : result (option string) :=
  if truthy current_id && negb force then
    match current_id with
    | Str key =>
        match is_valid_id g key method with
        | Ok true => Ok (Some key)
        | Ok false => Ok None
        | Raise e => Raise e
        end
    | _ => Raise (AttributeError ("'" +:+ type_name current_id +:+
                                  "' object has no attribute 'startswith'"))
    end
  else Ok None.

Section Command.
(** The draws of [os.urandom(16)] that the run makes, in order. *)
Variable urandom : nat → Z.

(** The loop over [enumerate(entities)] from index [i] on: the entities as
    the loop leaves them, the count of new identifiers, and the generator.
    Every entity is a value of its own, as in a document without aliases;
    [MintShared] below is the command on objects that may be shared. *)
Fixpoint mint_loop (id_key method : string) (force : bool) (preflabel : string)
    (i : nat) (entities : list value) (w : world) (new_ids : nat)
  : run (list value * nat * world) :=
  match entities with
  | [] => Done ([], new_ids, w)
  | Dict entity :: entities' =>
      let current_id := get entity id_key in
      let label_value := get entity preflabel in
      if negb (truthy label_value) then Failed (LabelMissing i)
      else
        match keeps (self w) current_id method force with
        | Raise e => Failed (Uncaught e)
        | Ok (Some key) =>
            match mint_loop id_key method force preflabel (S i) entities'
                    (World (register_id (self w) key) (drawn w)) new_ids with
            | Done (out, n, w') => Done (Dict entity :: out, n, w')
            | Failed f => Failed f
            end
        | Ok None =>
            match generate_id urandom w entity method true 10 preflabel with
            | (Raise e, _) => Failed (Uncaught e)
            | (Ok new_id, w1) =>
                match mint_loop id_key method force preflabel (S i) entities'
                        w1 (S new_ids) with
                | Done (out, n, w') => Done (Dict (set entity id_key (Str new_id)) :: out, n, w')
                | Failed f => Failed f
                end
            end
        end
  | _ :: _ => Failed (EntityNotDict i)
  end.

(** The command between loading [yaml_root] (a mapping) and writing it
    back: the root with its entities updated, and the count of new
    identifiers. *)
Definition mint (yaml_root : dict) (target_name namespace id_key method : string)
    (force : bool) (preflabel : string) : run (dict * nat) :=
  if negb (has_key yaml_root target_name) then Failed TargetMissing
  else
    match get yaml_root target_name with
    | List entities =>
        match mint_loop id_key method force preflabel 0 entities
                (World (init namespace None) 0) 0 with
        | Done (out, n, _) => Done (set yaml_root target_name (List out), n)
        | Failed f => Failed f
        end
    | _ => Failed TargetNotList
    end.
End Command.

(** An entity as the command leaves it: a mapping whose identifier the
    generator [g] accepts and whose label is true. *)
Definition minted (g : IdentifierGenerator) (id_key method preflabel : string)
    (e : value) : Prop :=
  ∃ d key, e = Dict d ∧ get d id_key = Str key ∧
           is_valid_id g key method = Ok true ∧ truthy (get d preflabel) = true.

(** An entity the command refuses: not a mapping, or a mapping whose label
    is missing or false. *)
Definition unlabelled (preflabel : string) (e : value) : Prop :=
  ∀ d, e = Dict d → truthy (get d preflabel) = false.

End MintCli.

(** ** [cli/mint.py] on a document with anchors and aliases *)
Module MintShared.
Import Json Mint.

(** What [yaml.safe_load] builds: scalars, and list and mapping objects. A
    value is a scalar or a reference to an object of the store; an anchor
    and its aliases load as one object, so that a reference may occur in
    several places, and a write through one of them shows through the
    others. *)
Inductive val :=
  | VNull
  | VBool (b : bool)
  | VInt (z : Z)
  | VStr (s : string)
  | VRef (r : nat).

Inductive obj :=
  | OList (items : list val)
  | ODict (items : list (string * val)).

Abbreviation store := (gmap nat obj).

(** [bool(v)] *)
Definition truthy (st : store) (v : val) : bool :=
  match v with
  | VNull => false
  | VBool b => b
  | VInt z => negb (z =? 0)%Z
  | VStr s => negb (String.eqb s "")
  | VRef r =>
      match st !! r with
      | Some (OList []) | Some (ODict []) => false
      | _ => true
      end
  end.

(** [type(v).__name__] *)
Definition type_name (st : store) (v : val) : string :=
  match v with
  | VNull => "NoneType"
  | VBool _ => "bool"
  | VInt _ => "int"
  | VStr _ => "str"
  | VRef r => match st !! r with Some (OList _) => "list" | _ => "dict" end
  end.

(** [k in d], [d.get(k)] and [d[k] = v] on the items of a mapping. *)
Fixpoint has_key (d : list (string * val)) (k : string) : bool :=
  match d with
  | [] => false
  | (k', _) :: d' => String.eqb k' k || has_key d' k
  end.

Fixpoint get (d : list (string * val)) (k : string) : val :=
  match d with
  | [] => VNull
  | (k', v) :: d' => if String.eqb k' k then v else get d' k
  end.

Fixpoint set (d : list (string * val)) (k : string) (v : val) : list (string * val) :=
  match d with
  | [] => [(k, v)]
  | (k', v') :: d' => if String.eqb k' k then (k', v) :: d' else (k', v') :: set d' k v
  end.

(** The value that [json.dumps] walks: the objects behind the references,
    as deep as [fuel] references; nothing when the walk does not end
    there. *)
Fixpoint tree (fuel : nat) (st : store) (v : val) {struct fuel} : option value :=
  match v with
  | VNull => Some Null
  | VBool b => Some (Bool b)
  | VInt z => Some (Int z)
  | VStr s => Some (Str s)
  | VRef r =>
      match fuel with
      | O => None
      | S fuel' =>
          match st !! r with
          | Some (OList items) => List <$> mapM (tree fuel' st) items
          | Some (ODict items) =>
              Dict <$> mapM (λ kv : string * val, pair kv.1 <$> tree fuel' st kv.2) items
          | None => None
          end
      end
  end.

(** A walk through more references than the store has objects has met one
    of them twice: the value is circular, and [json.dumps] raises. *)
Definition to_json (st : store) (v : val) : option value := tree (S (size st)) st v.

(** Where the command gives up. Every exception is caught at the end of
    the command, logged, and turned into [sys.exit(1)]. *)
Inductive failure :=
  | RootNotMapping
  | TargetMissing
  | TargetNotList
  | EntityNotDict (i : nat)
  | LabelMissing (i : nat)
  | Uncaught (e : exn).

Inductive run (A : Type) :=
  | Done (a : A)
  | Failed (f : failure).
Arguments Done {A} a.
Arguments Failed {A} f.

(** The test [if current_id and not force: if is_valid_id(current_id, ...)] *)
Definition keeps (st : store) (g : IdentifierGenerator) (current_id : val)
    (method : string) (force : bool) : result (option string) :=
  if truthy st current_id && negb force then
    match current_id with
    | VStr key =>
        match is_valid_id g key method with
        | Ok true => Ok (Some key)
        | Ok false => Ok None
        | Raise e => Raise e
        end
    | _ => Raise (AttributeError ("'" +:+ type_name st current_id +:+
                                  "' object has no attribute 'startswith'"))
    end
  else Ok None.

Section Command.
Variable urandom : nat → Z.

(** [id_generator.generate_id(entity, method=method, preflabel=preflabel)]
    on the mapping object [r]. Only the hash method reads the items of the
    entity, through [json.dumps]; on a circular entity that raises. *)
Definition generate (st : store) (w : world) (r : nat) (method preflabel : string)
  : result string * world :=
  match to_json st (VRef r) with
  | Some (Dict entity) => generate_id urandom w entity method true 10 preflabel
  | _ =>
      if String.eqb method "hash"
      then (Raise (ValueError "Circular reference detected"), w)
      else generate_id urandom w [] method true 10 preflabel
  end.

(** The loop over [enumerate(entities)] from index [i] on: the store, the
    count of new identifiers and the generator as the loop leaves them.
    [entity[id_key] = new_id] writes to the object, whatever else refers to
    it. *)
Fixpoint mint_loop (id_key method : string) (force : bool) (preflabel : string)
    (i : nat) (entities : list val) (st : store) (w : world) (new_ids : nat)
  : run (store * nat * world) :=
  match entities with
  | [] => Done (st, new_ids, w)
  | VRef r :: entities' =>
      match st !! r with
      | Some (ODict entity) =>
          let current_id := get entity id_key in
          let label_value := get entity preflabel in
          if negb (truthy st label_value) then Failed (LabelMissing i)
          else
            match keeps st (self w) current_id method force with
            | Raise e => Failed (Uncaught e)
            | Ok (Some key) =>
                mint_loop id_key method force preflabel (S i) entities' st
                  (World (register_id (self w) key) (drawn w)) new_ids
            | Ok None =>
                match generate st w r method preflabel with
                | (Raise e, _) => Failed (Uncaught e)
                | (Ok new_id, w1) =>
                    mint_loop id_key method force preflabel (S i) entities'
                      (<[r := ODict (set entity id_key (VStr new_id))]> st) w1 (S new_ids)
                end
            end
      | _ => Failed (EntityNotDict i)
      end
  | _ :: _ => Failed (EntityNotDict i)
  end.

(** The command between loading the document, whose root is the object
    [yaml_root], and writing it back: the store with the identifiers
    written, and the count of new identifiers. The list of entities is
    read once, before the loop. *)
Definition mint (st : store) (yaml_root : nat) (target_name namespace id_key method : string)
    (force : bool) (preflabel : string) : run (store * nat) :=
  match st !! yaml_root with
  | Some (ODict root) =>
      if negb (has_key root target_name) then Failed TargetMissing
      else
        match get root target_name with
        | VRef l =>
            match st !! l with
            | Some (OList entities) =>
                match mint_loop id_key method force preflabel 0 entities st
                        (World (init namespace None) 0) 0 with
                | Done (st', n, _) => Done (st', n)
                | Failed f => Failed f
                end
            | _ => Failed TargetNotList
            end
        | _ => Failed TargetNotList
        end
  | _ => Failed RootNotMapping
  end.
End Command.

(** [st'] is [st] but for identifiers written to the mappings [written]:
    no object is created or dropped, a list is as it was, a mapping keeps
    the value of every key but [id_key], and a mapping that is not among
    [written] is as it was. *)
Definition ids_written (id_key : string) (written : list val) (st st' : store) : Prop :=
  ∀ r,
    match st !! r with
    | None => st' !! r = None
    | Some (OList items) => st' !! r = Some (OList items)
    | Some (ODict items) =>
        ∃ items', st' !! r = Some (ODict items') ∧
          (∀ k, k ≠ id_key → get items' k = get items k) ∧
          (VRef r ∉ written → items' = items)
    end.

(** The identifier an entity carries in a store. *)
Definition id_in (st : store) (id_key : string) (e : val) (X : string) : Prop :=
  ∃ r items, e = VRef r ∧ st !! r = Some (ODict items) ∧ get items id_key = VStr X.

(** An entity without an identifier that counts. *)
Definition unidentified (st : store) (id_key : string) (e : val) : Prop :=
  ∀ r items, e = VRef r → st !! r = Some (ODict items) →
             truthy st (get items id_key) = false.

End MintShared.

(** ** [cli/cleanrdf.py]: the command that cleans an ontology and writes
    one Turtle file per term *)
Module CleanCli.
Import Rdf.

(** The files of the output folder: what graph each path holds. *)
Abbreviation files := (gmap string Graph).

(** The map the command passes to [clean_graph]. *)
Definition property_map : gmap string string :=
  {[ "label" := "http://www.w3.org/2000/01/rdf-schema#label" ]}.

Section Command.
Variable STRLANG : term → term → bind_outcome.
Variable initial_namespaces : gmap string string.
(** The order in which the store lists the triples that match a pattern. *)
Variable sequence : gset triple → list triple.
(** [str(Path(p))]: the path text as [pathlib] normalises it. *)
Variable normalize : string → string.
(** The order in which a set of strings is iterated. *)
Variable iterate : gset string → list string.

(** [serialize_graph(g, output_path)]: the file is overwritten. *)
Definition serialize_graph (fs : files) (g : Graph) (output_path : string) : files :=
  <[normalize output_path := g]> fs.

(** [f"{term_output_path}/{term_id}.ttl"] *)
Definition output_path (term_output_path term_id : string) : string :=
  term_output_path +:+ "/" +:+ term_id +:+ ".ttl".

(** The body of the loop over the pairs: a file per pair, and the counter.
    The graphs are read from the heap the splitter has left, in which an
    assertion graph is what it was when it was yielded. *)
Fixpoint write_assertions (term_output_path : string) (h : heap)
    (pairs : list (string * nat)) (fs : files) (counter : nat) : files * nat :=
  match pairs with
  | [] => (fs, counter)
  | (term_id, assertion) :: pairs' =>
      write_assertions term_output_path h pairs'
        (serialize_graph fs (h !!! assertion) (output_path term_output_path term_id))
        (S counter)
  end.

(** The path of the file written for a pair. *)
Definition file_of (term_output_path : string) (pr : string * nat) : string :=
  normalize (output_path term_output_path pr.1).

(** The set [parent_subclasses] after [add(term_parent_class)]. *)
Definition parent_classes (term_parent_class : string)
    (parent_subclasses : option (list string)) : gset string :=
  {[ term_parent_class ]} ∪
  match parent_subclasses with
  | None => ∅
  | Some l => list_to_set l
  end.

(** The command, from the graph [g] that [read_graph] has loaded: the heap,
    the files and the counter at the end. *)
Definition cli (h : heap) (g : nat) (fs : files)
    (base_namespace term_output_path term_parent_class : string)
    (parent_subclasses : option (list string)) : result (heap * files * nat) :=
  match clean_graph STRLANG (h !!! g) base_namespace property_map with
  | Raise e => Raise e
  | Ok cleaned =>
      let h := <[g := cleaned]> h in
      let '(pairs, h) :=
        split_into_assertions initial_namespaces sequence g h
          (iterate (parent_classes term_parent_class parent_subclasses)) in
      let '(fs, counter) := write_assertions term_output_path h pairs fs 0 in
      Ok (h, fs, counter)
  end.
End Command.

End CleanCli.

(** ** [rdf2nanopub.py]: publishing a sequence of assertions *)
Module Nanopub.
Import Rdf.

Section Service.
(** Everything outside the program that a run can read or change: the
    clock, the key files, the nanopub network. *)
Variable world : Type.
(** [create_nanopub(assertion)], [np.sign()] and [np.metadata.np_uri] of
    the nanopub library: the URI of the signed nanopublication, or none, or
    an exception. The statement is missing where [zip_longest] has filled
    the shorter list. *)
Variable sign : world → option Graph → result (option string) * world.
(** [np.publish()]: the exception it raises, if any. *)
Variable publish : world → option Graph → option exn * world.

Definition publish_single (w : world) (to_publish : option Graph)
    (supersedes : option string) (dry_run : bool) : result string * world :=
  match supersedes with
  | None =>
      match sign w to_publish with
      | (Raise e, w) => (Raise e, w)
      | (Ok None, w) => (Raise (ValueError "no URI returned by nanpub server."), w)
      | (Ok (Some np_uri), w) =>
          if negb dry_run then
            match publish w to_publish with
            | (Some e, w) => (Raise e, w)
            | (None, w) => (Ok np_uri, w)
            end
          else (Ok np_uri, w)
      end
  | Some _ => (Raise NotImplementedError, w)
  end.

(** [itertools.zip_longest(l1, l2)] *)
Fixpoint zip_longest {A B} (l1 : list A) (l2 : list B) : list (option A * option B) :=
  match l1 with
  | [] => (λ y, (None, Some y)) <$> l2
  | x :: l1' =>
      match l2 with
      | [] => (Some x, None) :: zip_longest l1' []
      | y :: l2' => (Some x, Some y) :: zip_longest l1' l2'
      end
  end.

(** The loop of [publish_sequence], with [np_uris] in reverse. *)
Fixpoint publish_loop (w : world) (pairs : list (option Graph * option string))
    (dry_run : bool) (np_uris : list string) : result (list string) * world :=
  match pairs with
  | [] => (Ok (reverse np_uris), w)
  | (statement, supersedes_uri) :: pairs' =>
      match publish_single w statement supersedes_uri dry_run with
      | (Raise e, w) => (Raise e, w)
      | (Ok np_uri, w) => publish_loop w pairs' dry_run (np_uri :: np_uris)
      end
  end.

Definition publish_sequence (w : world) (to_publish : list Graph)
    (supersedes : option (list string)) (dry_run : bool)
  : result (list string) * world :=
  let supersedes := match supersedes with None => [] | Some l => l end in
  publish_loop w (zip_longest to_publish supersedes) dry_run [].
End Service.
Arguments publish_single {world} sign publish w to_publish supersedes dry_run.
Arguments publish_loop {world} sign publish w pairs dry_run np_uris.
Arguments publish_sequence {world} sign publish w to_publish supersedes dry_run.

End Nanopub.

(** ** [cli/yamlconcat.py]: aggregating vocabulary files *)
Module YamlConcat.
Import Json MintCli.

(** [a == b] on the values of a YAML file: numbers and booleans compare by
    value, sequences element by element, mappings key by key whatever the
    order of the keys. *)
Fixpoint py_eq (a b : value) {struct a} : bool :=
  match a, b with
  | Null, Null => true
  | Bool x, Bool y => Bool.eqb x y
  | Bool x, Int z | Int z, Bool x => (z =? (if x then 1 else 0))%Z
  | Int x, Int y => (x =? y)%Z
  | Str x, Str y => String.eqb x y
  | List l, List l' =>
      (fix go (l : list value) (l' : list value) {struct l} : bool :=
         match l, l' with
         | [], [] => true
         | x :: l, y :: l' => py_eq x y && go l l'
         | _, _ => false
         end) l l'
  | Dict d, Dict d' =>
      (length d =? length d')%nat &&
      (fix go (d : list (string * value)) {struct d} : bool :=
         match d with
         | [] => true
         | (k, v) :: d => has_key d' k && py_eq v (get d' k) && go d
         end) d
  | _, _ => false
  end.

(** Where the command gives up with a [ClickException]; [i] is the place
    of the file among the sorted inputs. *)
Inductive refusal :=
  | NoInputs
  | ParseFailed (i : nat)
  | NotMapping (i : nat)
  | ConflictingIds (i : nat)
  | TargetNotAList (i : nat).

(** [yaml.safe_load(...) or {}] *)
Definition or_empty (v : value) : value := if truthy v then v else Dict [].

(** The loop over [sorted(inputs)], from the file at place [i] on; a file
    is what [yaml.safe_load] returns for it, or nothing when reading or
    parsing it raises. The state is the list [combined[target]] and the
    container identifier. *)
Fixpoint concat_loop (target : string) (i : nat) (inputs : list (option value))
    (collected : list value) (container_id : option value)
  : refusal + (list value * option value) :=
  match inputs with
  | [] => inr (collected, container_id)
  | None :: _ => inl (ParseFailed i)
  | Some loaded :: inputs' =>
      match or_empty loaded with
      | Dict data =>
          let file_id := get data "id" in
          let extend (container_id : option value) :=
            if has_key data target then
              match get data target with
              | List subclasses =>
                  concat_loop target (S i) inputs' (collected ++ subclasses) container_id
              | _ => inl (TargetNotAList i)
              end
            else concat_loop target (S i) inputs' collected container_id in
          match container_id with
          | None => if truthy file_id then extend (Some file_id) else extend None
          | Some cid =>
              if truthy file_id && negb (py_eq file_id cid) then inl (ConflictingIds i)
              else extend container_id
          end
      | _ => inl (NotMapping i)
      end
  end.

(** The command, from the inputs in the order [sorted] gives them to the
    mapping that is written. *)
Definition cli (inputs : list (option value)) (target : string) : refusal + dict :=
  match inputs with
  | [] => inl NoInputs
  | _ =>
      match concat_loop target 0 inputs [] None with
      | inl f => inl f
      | inr (collected, container_id) =>
          let combined := [(target, List collected)] in
          inr (match container_id with
               | Some cid => if truthy cid then set combined "id" cid else combined
               | None => combined
               end)
      end
  end.

(** The mapping a file stands for, if it is one. *)
Definition mapping_of (file : option value) : option dict :=
  match file with
  | Some loaded => match or_empty loaded with Dict data => Some data | _ => None end
  | None => None
  end.

(** The list a file contributes: the one under [target], none without the
    key. *)
Definition target_list (target : string) (file : option value) : list value :=
  match mapping_of file with
  | Some data => match get data target with List l => l | _ => [] end
  | None => []
  end.

(** The identifier a file declares, [None] without one. *)
Definition file_id (file : option value) : value :=
  match mapping_of file with
  | Some data => get data "id"
  | None => Null
  end.

(** The identifiers the files declare, in the order of the files: the
    values under [id] that count as true. *)
Definition declared_ids (inputs : list (option value)) : list value :=
  List.filter truthy (file_id <$> inputs).

End YamlConcat.

(** ** Sample data *)
Module Samples.

Definition term_ns : string := "http://example.org/term/".

(** The record [{"name": "Acetone"}]. *)
Definition acetone : Json.dict := [("name", Json.Str "Acetone")].

(** The record [{"name": "Benzene", "cas": 71432}]. *)
Definition benzene : Json.dict := [("name", Json.Str "Benzene"); ("cas", Json.Int 71432)].

(** A record with nested values, keys out of order, and a name that needs
    every kind of escape: e-acute, DEL, a quote, a backslash, a newline, a
    tab and the control character 1 after the letters [Ac]. *)
Definition escapes : Json.dict :=
  [("name", Json.Str ("Ac" +:+ String "233"%char (String "127"%char (String "034"%char
      (String "092"%char (String "010"%char (String "009"%char (String "001"%char ""))))))));
   ("b", Json.List [Json.Int 1; Json.Int (-2); Json.Bool true; Json.Null;
                    Json.Dict [("z", Json.Int 1); ("a", Json.Str "x")]])].

(** An entropy source whose [k]-th draw is [k] itself. *)
Definition counting : nat → Z := Z.of_nat.

(** A new generator for [term_ns], without a type prefix, and no draw made. *)
Definition fresh_world : Mint.world := Mint.World (Mint.init term_ns None) 0.

(** The same with the type prefix [chem]. *)
Definition chem_world : Mint.world := Mint.World (Mint.init term_ns (Some "chem")) 0.

(** Graphs for the cleaner. *)
Definition base_ns : string := "http://example.org/".
Definition rdfs_label : string := "http://www.w3.org/2000/01/rdf-schema#label".
Definition label_map : gmap string string := {[ "label" := rdfs_label ]}.

Definition subj : Rdf.node := Rdf.URIRef "http://example.org/S".
Definition inner : Rdf.node := Rdf.URIRef "http://example.org/S2".
Definition tnode : Rdf.node := Rdf.BNode "t1".

(** The three attributes of a translation node for [label], [en], [Foo]. *)
Definition foo_en (n : Rdf.node) : gset Rdf.triple :=
  {[ (n, Rdf.PROPERTY_NAME base_ns, Rdf.Lit (Rdf.plain "label"));
     (n, Rdf.LANGUAGE base_ns, Rdf.Lit (Rdf.plain "en"));
     (n, Rdf.TRANSLATED_VALUE base_ns, Rdf.Lit (Rdf.plain "Foo")) ]}.

(** [S --translations--> t1] with the three attributes on [t1]. *)
Definition translated : Rdf.Graph :=
  Rdf.MkGraph ({[ (subj, Rdf.TRANSLATIONS base_ns, Rdf.Node tnode) ]} ∪ foo_en tnode) ∅.

Definition translated_cleaned : Rdf.Graph :=
  Rdf.MkGraph {[ (subj, rdfs_label, Rdf.Lit (Rdf.Literal "Foo" (Some "en") None)) ]} ∅.

(** [S --translations--> t1], and [t1] has no triple of its own. *)
Definition dangling : Rdf.Graph :=
  Rdf.MkGraph {[ (subj, Rdf.TRANSLATIONS base_ns, Rdf.Node tnode) ]} ∅.

(** [S --translations--> S2 --translations--> t1], attributes on [t1]. *)
Definition nested : Rdf.Graph :=
  Rdf.MkGraph ({[ (subj, Rdf.TRANSLATIONS base_ns, Rdf.Node inner);
                  (inner, Rdf.TRANSLATIONS base_ns, Rdf.Node tnode) ]} ∪ foo_en tnode) ∅.



(** A subject with two translation nodes: [t1] is well formed, [t2]
    carries a language only. *)
Definition tnode2 : Rdf.node := Rdf.BNode "t2".

Definition mixed : Rdf.Graph :=
  Rdf.MkGraph
    ({[ (subj, Rdf.TRANSLATIONS base_ns, Rdf.Node tnode);
        (subj, Rdf.TRANSLATIONS base_ns, Rdf.Node tnode2);
        (tnode2, Rdf.LANGUAGE base_ns, Rdf.Lit (Rdf.plain "en")) ]} ∪ foo_en tnode) ∅.

(** Graphs for the splitter: [A] and [B] are direct subclasses of
    [Parent], [C] is a subclass of [A]. *)
Definition parent : Rdf.node := Rdf.URIRef "http://example.org/Parent".
Definition classA : Rdf.node := Rdf.URIRef "http://example.org/A".
Definition classB : Rdf.node := Rdf.URIRef "http://example.org/vocab#B".
Definition classC : Rdf.node := Rdf.URIRef "http://example.org/C".

Definition ontology : Rdf.Graph :=
  Rdf.MkGraph
    {[ (classA, Rdf.subClassOf, Rdf.Node parent);
       (classA, rdfs_label, Rdf.Lit (Rdf.Literal "A" (Some "en") None));
       (classB, Rdf.subClassOf, Rdf.Node parent);
       (classC, Rdf.subClassOf, Rdf.Node classA);
       (parent, rdfs_label, Rdf.Lit (Rdf.plain "Parent")) ]}
    {[ "ex" := "http://example.org/" ]}.

(** A heap in which reference [0] is the ontology. *)
Definition ontology_heap : gmap nat Rdf.Graph := {[ 0%nat := ontology ]}.

(** The heap after splitting the ontology for the parent [ex:Parent]. *)
Definition split_heap : gmap nat Rdf.Graph :=
  {[ 0%nat := ontology;
     1%nat := Rdf.MkGraph
                {[ (classA, Rdf.subClassOf, Rdf.Node parent);
                   (classA, rdfs_label, Rdf.Lit (Rdf.Literal "A" (Some "en") None)) ]} ∅;
     2%nat := Rdf.MkGraph {[ (classB, Rdf.subClassOf, Rdf.Node parent) ]} ∅ ]}.

(** A vocabulary file: three chemicals, one of them with an identifier. *)
Definition vocabulary : Json.dict :=
  [("id", Json.Str "chemicals");
   ("terms", Json.List
      [Json.Dict [("name", Json.Str "Acetone")];
       Json.Dict [("name", Json.Str "Benzene"); ("cas", Json.Int 71432)];
       Json.Dict [("id", Json.Str "http://example.org/term/0123456789");
                  ("name", Json.Str "Water")]])].

Definition vocabulary_minted : Json.dict :=
  [("id", Json.Str "chemicals");
   ("terms", Json.List
      [Json.Dict [("name", Json.Str "Acetone");
                  ("id", Json.Str "http://example.org/term/f12530d320")];
       Json.Dict [("name", Json.Str "Benzene"); ("cas", Json.Int 71432);
                  ("id", Json.Str "http://example.org/term/ec049d31d6")];
       Json.Dict [("id", Json.Str "http://example.org/term/0123456789");
                  ("name", Json.Str "Water")]])].

(** A document whose first entity is anchored and used again under the
    key [proto] of the root:
    [proto: &p {name: Acetone}], [terms: [*p, {name: Benzene, cas: 71432}]]. *)
Definition anchored : gmap nat MintShared.obj :=
  {[ 0%nat := MintShared.ODict [("proto", MintShared.VRef 1); ("terms", MintShared.VRef 2)];
     1%nat := MintShared.ODict [("name", MintShared.VStr "Acetone")];
     2%nat := MintShared.OList [MintShared.VRef 1; MintShared.VRef 3];
     3%nat := MintShared.ODict [("name", MintShared.VStr "Benzene");
                                ("cas", MintShared.VInt 71432)] ]}.

Definition anchored_minted : gmap nat MintShared.obj :=
  {[ 0%nat := MintShared.ODict [("proto", MintShared.VRef 1); ("terms", MintShared.VRef 2)];
     1%nat := MintShared.ODict [("name", MintShared.VStr "Acetone");
                                ("id", MintShared.VStr "http://example.org/term/f12530d320")];
     2%nat := MintShared.OList [MintShared.VRef 1; MintShared.VRef 3];
     3%nat := MintShared.ODict [("name", MintShared.VStr "Benzene");
                                ("cas", MintShared.VInt 71432);
                                ("id", MintShared.VStr "http://example.org/term/ec049d31d6")] ]}.

(** A document that lists one entity twice:
    [terms: [&a {name: Acetone}, *a]]. *)
Definition repeated : gmap nat MintShared.obj :=
  {[ 0%nat := MintShared.ODict [("terms", MintShared.VRef 1)];
     1%nat := MintShared.OList [MintShared.VRef 2; MintShared.VRef 2];
     2%nat := MintShared.ODict [("name", MintShared.VStr "Acetone")] ]}.

Definition repeated_minted : gmap nat MintShared.obj :=
  {[ 0%nat := MintShared.ODict [("terms", MintShared.VRef 1)];
     1%nat := MintShared.OList [MintShared.VRef 2; MintShared.VRef 2];
     2%nat := MintShared.ODict [("name", MintShared.VStr "Acetone");
                                ("id", MintShared.VStr "http://example.org/term/f12530d320")] ]}.

(** A vocabulary whose second entity has no name. *)
Definition nameless : list Json.value :=
  [Json.Dict [("name", Json.Str "Acetone")]; Json.Dict [("cas", Json.Int 71432)]].

Definition vocabulary_nameless : Json.dict := [("terms", Json.List nameless)].

(** A class with a translation, for the whole pipeline: the language is
    written in capitals, and the namespace is bound to the empty prefix. *)
Definition pipeline_graph : Rdf.Graph :=
  Rdf.MkGraph
    {[ (classA, Rdf.subClassOf, Rdf.Node parent);
       (classA, Rdf.TRANSLATIONS base_ns, Rdf.Node tnode);
       (tnode, Rdf.PROPERTY_NAME base_ns, Rdf.Lit (Rdf.plain "label"));
       (tnode, Rdf.LANGUAGE base_ns, Rdf.Lit (Rdf.plain "EN"));
       (tnode, Rdf.TRANSLATED_VALUE base_ns, Rdf.Lit (Rdf.plain "Foo")) ]}
    {[ "" := "http://example.org/" ]}.

Definition pipeline_cleaned : Rdf.Graph :=
  Rdf.MkGraph
    {[ (classA, Rdf.subClassOf, Rdf.Node parent);
       (classA, rdfs_label, Rdf.Lit (Rdf.Literal "Foo" (Some "en") None)) ]}
    {[ "" := "http://example.org/" ]}.

Definition pipeline_assertion : Rdf.Graph :=
  Rdf.MkGraph
    {[ (classA, Rdf.subClassOf, Rdf.Node parent);
       (classA, rdfs_label, Rdf.Lit (Rdf.Literal "Foo" (Some "en") None)) ]} ∅.

Definition pipeline_heap : gmap nat Rdf.Graph := {[ 0%nat := pipeline_graph ]}.

Definition pipeline_split_heap : gmap nat Rdf.Graph :=
  {[ 0%nat := pipeline_cleaned; 1%nat := pipeline_assertion ]}.

Definition pipeline_files : gmap string Rdf.Graph := {[ "out/A.ttl" := pipeline_assertion ]}.

(** A nanopub service that signs everything with one URI and counts what
    is published. *)
Definition np_uri : string := "https://w3id.org/np/RAsample".

Definition counting_sign (w : nat) (statement : option Rdf.Graph)
  : result (option string) * nat := (Ok (Some np_uri), w).

Definition counting_publish (w : nat) (statement : option Rdf.Graph)
  : option exn * nat := (None, S w).

(** Three vocabulary fragments, the second an empty file. *)
Definition fragments : list (option Json.value) :=
  [Some (Json.Dict [("id", Json.Str "chemicals"); ("terms", Json.List [Json.Dict acetone])]);
   Some Json.Null;
   Some (Json.Dict [("terms", Json.List [Json.Dict benzene]); ("id", Json.Str "chemicals")])].

Definition fragments_combined : Json.dict :=
  [("terms", Json.List [Json.Dict acetone; Json.Dict benzene]);
   ("id", Json.Str "chemicals")].

End Samples.

(** * Properties *)

(** ** Strings *)
Section PyFacts.
Import Py.

Lemma append_nil (s : string) : "" +:+ s = s.
Proof. reflexivity. Qed.

Lemma append_cons (ch : ascii) (s1 s2 : string) :
  String ch s1 +:+ s2 = String ch (s1 +:+ s2).
Proof. reflexivity. Qed.

Lemma append_assoc (s1 s2 s3 : string) : (s1 +:+ s2) +:+ s3 = s1 +:+ s2 +:+ s3.
Proof.
  induction s1 as [|ch s1 IH]; [done|].
  by rewrite !append_cons, IH.
Qed.

Lemma len_append (s1 s2 : string) : len (s1 +:+ s2) = (len s1 + len s2)%nat.
Proof.
  unfold len. induction s1 as [|ch s1 IH]; [done|].
  rewrite append_cons. simpl. by rewrite IH.
Qed.

Lemma startswith_append (p s : string) : startswith (p +:+ s) p = true.
Proof.
  induction p as [|ch p IH]; [done|].
  rewrite append_cons. simpl. by rewrite Ascii.eqb_refl.
Qed.

Lemma drop_append (p s : string) : drop (len p) (p +:+ s) = s.
Proof.
  induction p as [|ch p IH]; [by destruct s|].
  rewrite append_cons. by simpl.
Qed.

Lemma take_append (p s : string) : take (len p) (p +:+ s) = p.
Proof.
  induction p as [|ch p IH]; [done|].
  rewrite append_cons. simpl. by rewrite IH.
Qed.

Lemma len_take (n : nat) (s : string) : (n ≤ len s)%nat → len (take n s) = n.
Proof.
  unfold len. revert s. induction n as [|n IH]; intros [|ch s] Hn; simpl in *; try done; try lia.
  rewrite IH; [done|lia].
Qed.

Lemma all_hex_take (n : nat) (s : string) : all_hex s = true → all_hex (take n s) = true.
Proof.
  revert s. induction n as [|n IH]; intros [|ch s]; simpl; try done.
  intros [Hc Hs]%andb_true_iff. rewrite Hc. by apply IH.
Qed.

Lemma all_hex_append (s1 s2 : string) :
  all_hex (s1 +:+ s2) = all_hex s1 && all_hex s2.
Proof.
  induction s1 as [|ch s1 IH]; [done|].
  rewrite append_cons. simpl. by rewrite IH, andb_assoc.
Qed.

Lemma is_hex_hexdigit (d : Z) : (0 ≤ d < 16)%Z → is_hex (hexdigit d) = true.
Proof.
  intros Hd.
  assert (Hcases : d ∈ seqZ 0 16) by (apply elem_of_seqZ; lia).
  vm_compute in Hcases.
  repeat (apply elem_of_cons in Hcases as [->|Hcases]; [by vm_compute|]).
  by apply elem_of_nil in Hcases.
Qed.

Lemma hex_go_spec (n : nat) (x : Z) (acc : string) :
  len (hex_go n x acc) = (n + len acc)%nat ∧
  (all_hex acc = true → all_hex (hex_go n x acc) = true).
Proof.
  revert x acc. induction n as [|n IH]; intros x acc; simpl; [done|].
  destruct (IH (x / 16)%Z (String (hexdigit (x mod 16)) acc)) as [Hlen Hall].
  split.
  - rewrite Hlen. unfold len. simpl. lia.
  - intros Hacc. apply Hall. simpl.
    rewrite is_hex_hexdigit; [done|]. apply Z.mod_pos_bound. lia.
Qed.

Lemma len_hex (n : nat) (x : Z) : len (hex n x) = n.
Proof. unfold hex. destruct (hex_go_spec n x "") as [-> _]. unfold len. simpl. lia. Qed.

Lemma all_hex_hex (n : nat) (x : Z) : all_hex (hex n x) = true.
Proof. unfold hex. by apply hex_go_spec. Qed.

(** A string of exactly [n] characters of the class matches the pattern. *)
Lemma match_hex_exact (n : nat) (s : string) :
  len s = n → all_hex s = true → match_hex n s = true.
Proof.
  unfold len. revert s. induction n as [|n IH]; intros [|ch s] Hlen Hall; simpl in *; try done.
  apply andb_true_iff in Hall as [-> Hall]. simpl. apply IH; [lia|done].
Qed.

End PyFacts.

(** ** The digest *)

Example sha256_abc :
  Sha256.hexdigest (Sha256.bytes_of "abc") =
  "ba7816bf8f01cfea414140de5dae2223b00361a396177a9cb410ff61f20015ad".
Proof. vm_compute. reflexivity. Qed.

Example sha256_two_blocks :
  Sha256.hexdigest (Sha256.bytes_of "abcdbcdecdefdefgefghfghighijhijkijkljklmklmnlmnomnopnopq") =
  "248d6a61d20638b8e5c026930c3e6039a33ce45964ff2167f6ecedd419db06c1".
Proof. vm_compute. reflexivity. Qed.

(** The canonical text of [{"name": "Acetone"}] and its digest. *)
Example hash_dict_acetone :
  Mint.hash_dict Samples.acetone =
  "f12530d320a048c28c273faf24f6255c83a4f5e1a2663525de209628d7a42c3d".
Proof. vm_compute. reflexivity. Qed.

(** Keys are sorted and the quote, the backslash, control characters and
    characters above [~] are escaped before hashing. *)
Example hash_dict_escapes :
  Mint.hash_dict Samples.escapes =
  "bc34e8adaf8628cfa27305016121abb7cf78345e40fa792b9488fbd5ef2321ab".
Proof. vm_compute. reflexivity. Qed.

Lemma hexdigest_len (bs : list Z) : Py.len (Sha256.hexdigest bs) = 64%nat.
Proof.
  unfold Sha256.hexdigest, Sha256.hexstate.
  by rewrite !len_append, !len_hex.
Qed.

Lemma hexdigest_all_hex (bs : list Z) : Py.all_hex (Sha256.hexdigest bs) = true.
Proof.
  unfold Sha256.hexdigest, Sha256.hexstate.
  by rewrite !all_hex_append, !all_hex_hex.
Qed.

(** ** The identifier generator *)
Section MintFacts.
Import Mint.

Variable urandom : nat → Z.

Lemma ok_pair_inv {A B : Type} (a a' : A) (b b' : B) :
  (Ok a, b) = (Ok a', b') → a = a' ∧ b = b'.
Proof. by intros [= -> ->]. Qed.

Lemma uuid_first8 (i : Z) : Py.take 8 (str_uuid i) = Py.take 8 (Py.hex 32 i).
Proof.
  unfold str_uuid.
  assert (Hlen : Py.len (Py.take 8 (Py.hex 32 i)) = 8%nat).
  { apply len_take. rewrite len_hex. lia. }
  rewrite <- Hlen at 1. apply take_append.
Qed.

(** Whatever [unique_part] returns has the length its method's pattern asks
    for and is made of lowercase hexadecimal digits. *)
Lemma unique_part_shape method entity attempts k u k' :
  unique_part urandom method entity attempts k = (Ok u, k') →
  ∃ n, unique_pattern method = Some n ∧ Py.len u = n ∧ Py.all_hex u = true.
Proof.
  unfold unique_part, unique_pattern.
  destruct (String.eqb method "uuid").
  - intros [<- _]%ok_pair_inv. exists 8%nat. rewrite uuid_first8. split_and!; [done| |].
    + apply len_take. rewrite len_hex. lia.
    + apply all_hex_take, all_hex_hex.
  - destruct (String.eqb method "hash"); [|done].
    destruct (0 <? attempts)%Z; [done|].
    intros [<- _]%ok_pair_inv. exists 10%nat. unfold hash_dict. split_and!; [done| |].
    + apply len_take. rewrite hexdigest_len. lia.
    + apply all_hex_take, hexdigest_all_hex.
Qed.

(** [is_valid_id] reads the namespace and the type prefix only. *)
Lemma is_valid_id_registry (g g' : IdentifierGenerator) key method :
  namespace g = namespace g' → type_prefix g = type_prefix g' →
  is_valid_id g key method = is_valid_id g' key method.
Proof. unfold is_valid_id. by intros -> ->. Qed.

Lemma identifier_of_valid (g : IdentifierGenerator) u method n :
  unique_pattern method = Some n → Py.len u = n → Py.all_hex u = true →
  is_valid_id g (identifier_of g u) method = Ok true.
Proof.
  intros Hpat Hlen Hhex. unfold is_valid_id, identifier_of. rewrite Hpat.
  destruct (type_prefix g) as [tp|].
  - rewrite startswith_append, drop_append. simpl.
    rewrite <- (append_assoc tp "-" u).
    rewrite startswith_append, drop_append. simpl.
    by rewrite match_hex_exact.
  - rewrite startswith_append, drop_append. simpl.
    by rewrite match_hex_exact.
Qed.

(** What a successful run of the loop returns, and what it leaves. *)
Lemma generate_loop_ok entity method cc max_attempts preflabel remaining attempts w X w' :
  generate_loop urandom entity method cc max_attempts preflabel remaining attempts w = (Ok X, w') →
  (∃ u n, X = identifier_of (self w) u ∧ unique_pattern method = Some n ∧
          Py.len u = n ∧ Py.all_hex u = true) ∧
  namespace (self w') = namespace (self w) ∧
  type_prefix (self w') = type_prefix (self w) ∧
  (cc = true → (X ∉ registered_ids (self w)) ∧
               registered_ids (self w') = {[X]} ∪ registered_ids (self w)).
Proof.
  revert attempts w X w'.
  induction remaining as [|remaining IH]; intros attempts w X w'; simpl; [done|].
  destruct (unique_part urandom method entity attempts (drawn w)) as [[u|e] k] eqn:Hu; [|done].
  apply unique_part_shape in Hu as (n & Hpat & Hlen & Hhex).
  destruct cc.
  - unfold is_id_available. case_bool_decide as Hin.
    + intros H. by apply IH in H.
    + intros [<- <-]%ok_pair_inv. simpl. split_and!; [by exists u, n|done..].
  - intros [<- <-]%ok_pair_inv. simpl. split_and!; [by exists u, n|done..].
Qed.

(** A run that raises leaves the registry as it was. *)
Lemma generate_loop_raise entity method cc max_attempts preflabel remaining attempts w e w' :
  generate_loop urandom entity method cc max_attempts preflabel remaining attempts w = (Raise e, w') →
  self w' = self w.
Proof.
  revert attempts w e w'.
  induction remaining as [|remaining IH]; intros attempts w e w'; simpl.
  { by intros [= _ <-]. }
  destruct (unique_part urandom method entity attempts (drawn w)) as [[u|e'] k].
  - destruct cc; [|done].
    destruct (is_id_available (self w) (identifier_of (self w) u)); [done|].
    intros H. by apply IH in H.
  - by intros [= _ <-].
Qed.

(** On a generator that has registered the hash identifier of a record, a
    call with the hash method and a budget of two attempts or more ends in
    the [TypeError] of the salting expression. *)
Lemma hash_retry_type_error w entity max_attempts preflabel :
  (2 ≤ max_attempts)%Z →
  identifier_of (self w) (Py.take 10 (hash_dict entity)) ∈ registered_ids (self w) →
  generate_id urandom w entity "hash" true max_attempts preflabel =
    (Raise (TypeError "unhashable type: 'slice'"), w).
Proof.
  intros Hmax Hin. unfold generate_id.
  destruct (Z.to_nat max_attempts) as [|[|n]] eqn:Hn; [lia..|].
  simpl. unfold is_id_available. rewrite bool_decide_true by done.
  by destruct w.
Qed.

(** What the statement after the loop raises: never a [RuntimeError] that
    shows a value of the record. *)
Lemma exhausted_no_member entity max_attempts preflabel :
  preflabel ∉ dict_members →
  exhausted entity max_attempts preflabel =
    AttributeError ("'dict' object has no attribute '" +:+ preflabel +:+ "'").
Proof. intros Hnot. unfold exhausted, getattr. by rewrite bool_decide_false. Qed.

End MintFacts.

(** ** Claims about the identifier generator *)
Section MintClaims.
Import Mint Samples.

Variable urandom : nat → Z.

(** The validity round trip holds for every namespace. *)
Lemma generate_id_valid_any w entity method cc max_attempts preflabel X w' :
  generate_id urandom w entity method cc max_attempts preflabel = (Ok X, w') →
  is_valid_id (self w') X method = Ok true.
Proof.
  unfold generate_id. intros H.
  apply generate_loop_ok in H as ((u & n & -> & Hpat & Hlen & Hhex) & Hns & Htp & _).
  rewrite (is_valid_id_registry (self w') (self w)) by done.
  exact (identifier_of_valid _ _ _ _ Hpat Hlen Hhex).
Qed.

(** C2. On a generator whose namespace ends in [/] or [#], with or without
    a type prefix, every identifier that [generate_id] returns for the
    method [hash] or [uuid] is accepted by [is_valid_id] of the same
    generator for that method. *)
Theorem generate_id_valid w entity method cc max_attempts preflabel X w' :
  Py.endswith (namespace (self w)) "/" = true ∨ Py.endswith (namespace (self w)) "#" = true →
  method = "hash" ∨ method = "uuid" →
  generate_id urandom w entity method cc max_attempts preflabel = (Ok X, w') →
  is_valid_id (self w') X method = Ok true.
Proof. intros _ _. apply generate_id_valid_any. Qed.

(** C7, as amended. For every key and every method other than [hash] and
    [uuid], [is_valid_id] raises [NotImplementedError] when the key starts
    with the namespace, and returns [False] when it does not. *)
Theorem is_valid_id_unsupported (g : IdentifierGenerator) key method :
  method ≠ "hash" → method ≠ "uuid" →
  is_valid_id g key method =
    if Py.startswith key (namespace g) then Raise NotImplementedError else Ok false.
Proof.
  intros Hhash Huuid. unfold is_valid_id, unique_pattern.
  apply String.eqb_neq in Hhash, Huuid. rewrite Hhash, Huuid.
  by destruct (Py.startswith key (namespace g)).
Qed.

(** With collision checking, a returned identifier is new to the registry
    and registered on return. *)
Lemma generate_id_registers w entity method max_attempts preflabel X w' :
  generate_id urandom w entity method true max_attempts preflabel = (Ok X, w') →
  (X ∉ registered_ids (self w)) ∧ registered_ids (self w') = {[X]} ∪ registered_ids (self w).
Proof.
  unfold generate_id. intros H.
  apply generate_loop_ok in H as (_ & _ & _ & H). by apply H.
Qed.

(** Identifiers returned by collision-checked calls were not registered
    when the sequence started. *)
Lemma run_returns_new calls w X :
  Forall (λ c, checks_collision c = true) calls →
  X ∈ (run urandom calls w).1 → X ∉ registered_ids (self w).
Proof.
  intros Hcc. revert w. induction Hcc as [|c calls Hc _ IH]; intros w; simpl.
  { by intros ?%elem_of_nil. }
  destruct c as [entity method cc max_attempts preflabel|identifier]; simpl in Hc.
  - subst cc.
    destruct (generate_id urandom w entity method true max_attempts preflabel)
      as [[Y|e] w1] eqn:Hgen.
    + apply generate_id_registers in Hgen as [Hnew Hreg].
      destruct (run urandom calls w1) as [ids w2] eqn:Hrun. simpl.
      intros [->|Hin]%elem_of_cons; [done|].
      specialize (IH w1). rewrite Hrun in IH. apply IH in Hin.
      rewrite Hreg in Hin. clear -Hin. set_solver.
    + unfold generate_id in Hgen. apply generate_loop_raise in Hgen.
      intros Hin%IH. by rewrite Hgen in Hin.
  - intros Hin%IH. simpl in Hin. set_solver.
Qed.

(** C5, as amended. Across any sequence of calls of [generate_id] with
    collision checking (and of [register_id]) on one generator, no
    identifier is returned twice. *)
Theorem generate_id_no_repeat calls w :
  Forall (λ c, checks_collision c = true) calls →
  NoDup (run urandom calls w).1.
Proof.
  intros Hcc. revert w. induction Hcc as [|c calls Hc Hcc IH]; intros w; simpl.
  { constructor. }
  destruct c as [entity method cc max_attempts preflabel|identifier]; simpl in Hc.
  - subst cc.
    destruct (generate_id urandom w entity method true max_attempts preflabel)
      as [[Y|e] w1] eqn:Hgen; [|apply IH].
    apply generate_id_registers in Hgen as [Hnew Hreg].
    pose proof (run_returns_new calls w1 Y Hcc) as Hlater.
    specialize (IH w1).
    destruct (run urandom calls w1) as [ids w2]. simpl in *.
    constructor; [|done].
    intros Hin. apply Hlater in Hin. rewrite Hreg in Hin. clear -Hin. set_solver.
  - apply IH.
Qed.

End MintClaims.

(** ** The claims at sample inputs *)
Section MintSamples.
Import Mint Samples.

(** The round trip for the record [benzene], hash method, type prefix
    [chem]. *)
Lemma generate_id_valid_witness :
  is_valid_id
    (self (generate_id counting chem_world benzene "hash" true 10 "name").2)
    "http://example.org/term/chem-ec049d31d6" "hash" = Ok true.
Proof.
  apply (generate_id_valid counting chem_world benzene "hash" true 10 "name").
  - left. vm_compute. reflexivity.
  - left. reflexivity.
  - vm_compute. reflexivity.
Defined.

(** C7 as stated fails: for a key outside the namespace [is_valid_id]
    returns [False] whatever the method is. *)
Lemma is_valid_id_unsupported_returns :
  is_valid_id (init term_ns None) "urn:uuid:ab12cd34" "slug" = Ok false.
Proof. vm_compute. reflexivity. Qed.

Lemma is_valid_id_unsupported_witness :
  is_valid_id (init term_ns None) "http://example.org/term/ab12cd34" "slug"
  = Raise NotImplementedError.
Proof.
  apply (is_valid_id_unsupported (init term_ns None) "http://example.org/term/ab12cd34" "slug").
  - discriminate.
  - discriminate.
Defined.

(** C5 as stated fails: without collision checking nothing is registered,
    and the hash of the same record is returned again. *)
Lemma unchecked_calls_repeat :
  (run counting
     [GenerateId acetone "hash" false 10 "name";
      GenerateId acetone "hash" false 10 "name"] fresh_world).1
  = ["http://example.org/term/f12530d320"; "http://example.org/term/f12530d320"]
  ∧ ¬ NoDup (run counting
     [GenerateId acetone "hash" false 10 "name";
      GenerateId acetone "hash" false 10 "name"] fresh_world).1.
Proof.
  assert (Hrun : (run counting
     [GenerateId acetone "hash" false 10 "name";
      GenerateId acetone "hash" false 10 "name"] fresh_world).1
    = ["http://example.org/term/f12530d320"; "http://example.org/term/f12530d320"]).
  { vm_compute. reflexivity. }
  split; [exact Hrun|]. rewrite Hrun.
  intros Hnd. apply NoDup_cons in Hnd as [Hnot _]. apply Hnot. left.
Qed.

Lemma generate_id_no_repeat_witness :
  NoDup (run counting
     [GenerateId acetone "hash" true 10 "name";
      GenerateId acetone "hash" true 10 "name";
      RegisterId "http://example.org/term/00000000";
      GenerateId benzene "uuid" true 10 "name";
      GenerateId benzene "hash" true 10 "name"] fresh_world).1.
Proof.
  apply generate_id_no_repeat.
  repeat constructor.
Defined.

(** C1. The second call for the same record collides on its first attempt;
    the retry evaluates [entity["_collision":attempts]] and raises. No second
    candidate is computed. *)
Theorem hash_retry_raises :
  let first := generate_id counting fresh_world acetone "hash" true 10 "name" in
  first.1 = Ok "http://example.org/term/f12530d320" ∧
  (generate_id counting first.2 acetone "hash" true 10 "name").1
  = Raise (TypeError "unhashable type: 'slice'").
Proof. split; vm_compute; reflexivity. Qed.

(** C6. With a budget of one attempt, the second call for the same record
    uses it up; the statement after the loop evaluates
    [getattr(entity, preflabel)] on the dict and raises [AttributeError]
    instead of the [RuntimeError] that names the label. *)
Theorem exhaustion_raises_attribute_error :
  let first := generate_id counting fresh_world acetone "hash" true 1 "name" in
  first.1 = Ok "http://example.org/term/f12530d320" ∧
  (generate_id counting first.2 acetone "hash" true 1 "name").1
  = Raise (AttributeError "'dict' object has no attribute 'name'").
Proof. split; vm_compute; reflexivity. Qed.

End MintSamples.

(** ** The cleaner *)
Section CleanerFacts.
Import Rdf.

Variable STRLANG : term → term → bind_outcome.

Implicit Types (g : gset triple) (G : Graph) (x : triple) (s t : node) (o : term).


(** The solutions of the triple patterns are the joins the query
    describes. *)
Lemma elem_of_construct_bgp g ns s t propName lang value :
  (s, t, propName, lang, value) ∈ construct_bgp g ns ↔
    (s, TRANSLATIONS ns, Node t) ∈ g ∧
    (t, PROPERTY_NAME ns, propName) ∈ g ∧
    (t, LANGUAGE ns, lang) ∈ g ∧
    (t, TRANSLATED_VALUE ns, value) ∈ g.
Proof.
  unfold construct_bgp. split.
  - intros ([[s1 p1] o1] & H & H1%elem_of_elements)%list_elem_of_bind.
    destruct o1 as [t1|]; [|by apply elem_of_nil in H].
    case_decide as Hp1; [subst p1|by apply elem_of_nil in H].
    apply list_elem_of_bind in H as ([[s2 p2] o2] & H & H2%elem_of_elements).
    case_decide as Hp2; [destruct Hp2 as [-> ->]|by apply elem_of_nil in H].
    apply list_elem_of_bind in H as ([[s3 p3] o3] & H & H3%elem_of_elements).
    case_decide as Hp3; [destruct Hp3 as [-> ->]|by apply elem_of_nil in H].
    apply list_elem_of_bind in H as ([[s4 p4] o4] & H & H4%elem_of_elements).
    case_decide as Hp4; [destruct Hp4 as [-> ->]|by apply elem_of_nil in H].
    apply list_elem_of_singleton in H as [= -> -> -> -> ->]. done.
  - intros (H1 & H2 & H3 & H4).
    apply list_elem_of_bind. eexists (_, _, _). split; [|apply elem_of_elements, H1].
    simpl. rewrite decide_True by done.
    apply list_elem_of_bind. eexists (_, _, _). split; [|apply elem_of_elements, H2].
    simpl. rewrite decide_True by done.
    apply list_elem_of_bind. eexists (_, _, _). split; [|apply elem_of_elements, H3].
    simpl. rewrite decide_True by done.
    apply list_elem_of_bind. eexists (_, _, _). split; [|apply elem_of_elements, H4].
    simpl. rewrite decide_True by done. by apply list_elem_of_singleton.
Qed.








(** No solution, nothing constructed. *)
Lemma construct_query_none g (ns : string) (pm : gmap string string) :
  construct_bgp g ns = [] → construct_query STRLANG g ns pm = Ok ∅.
Proof.
  intros Hbgp. unfold construct_query, construct_where. rewrite Hbgp.
  by case_decide.
Qed.

(** What the DELETE query removes. *)
Lemma elem_of_delete_template g ns x :
  x ∈ delete_template ns (delete_where g ns) ↔
  ∃ s t p o, (s, TRANSLATIONS ns, Node t) ∈ g ∧ (t, p, o) ∈ g ∧
             (x = (s, TRANSLATIONS ns, Node t) ∨ x = (t, p, o)).
Proof.
  unfold delete_template, delete_where. rewrite elem_of_list_to_set, list_elem_of_bind. split.
  - intros ([[[s t] p] o] & Hx & H).
    apply list_elem_of_bind in H as ([[s1 p1] o1] & H & H1%elem_of_elements).
    destruct o1 as [t1|]; [|by apply elem_of_nil in H].
    case_decide as Hp1; [subst p1|by apply elem_of_nil in H].
    apply list_elem_of_bind in H as ([[s2 p2] o2] & H & H2%elem_of_elements).
    case_decide as Hs2; [subst s2|by apply elem_of_nil in H].
    apply list_elem_of_singleton in H as [= -> -> -> ->].
    exists s1, t1, p2, o2. split_and!; [done..|].
    apply elem_of_cons in Hx as [->|Hx]; [by left|].
    apply list_elem_of_singleton in Hx as ->. by right.
  - intros (s & t & p & o & H1 & H2 & Hx). exists (s, t, p, o). split.
    + destruct Hx as [-> | ->]; [left|right; left].
    + apply list_elem_of_bind. eexists (_, _, _). split; [|apply elem_of_elements, H1].
      simpl. rewrite decide_True by done.
      apply list_elem_of_bind. eexists (_, _, _). split; [|apply elem_of_elements, H2].
      simpl. rewrite decide_True by done. by apply list_elem_of_singleton.
Qed.

Lemma elem_of_delete_query g ns x :
  x ∈ delete_query g ns ↔
  x ∈ g ∧ ¬ ∃ s t p o, (s, TRANSLATIONS ns, Node t) ∈ g ∧ (t, p, o) ∈ g ∧
                       (x = (s, TRANSLATIONS ns, Node t) ∨ x = (t, p, o)).
Proof. unfold delete_query. by rewrite elem_of_difference, elem_of_delete_template. Qed.

(** The loop [for triple in constructed: g.add(triple)]. *)
Lemma foldl_add G (l : list triple) :
  triples (foldl add G l) = list_to_set l ∪ triples G ∧
  namespaces (foldl add G l) = namespaces G.
Proof.
  revert G. induction l as [|x l IH]; intros G; simpl.
  { split; [|done]. clear. set_solver. }
  destruct (IH (add G x)) as [-> ->]. simpl. split; [|done]. clear. set_solver.
Qed.

(** [add_language] in one equation. *)
Lemma add_language_ok G ns pm G' :
  add_language STRLANG G ns pm = Ok G' →
  ∃ c, construct_query STRLANG (triples G) ns pm = Ok c ∧
       triples G' = delete_query (c ∪ triples G) ns ∧
       namespaces G' = namespaces G.
Proof.
  unfold add_language.
  destruct (negb _); [done|].
  destruct (construct_query STRLANG (triples G) ns pm) as [c|] eqn:Hc; [|done].
  intros [= <-]. exists c. simpl.
  destruct (foldl_add G (elements c)) as [-> ->].
  by rewrite list_to_set_elements_L.
Qed.


(** After the pass, the target of a translations edge has no triple. *)
Lemma cleaned_edge_target G ns pm G' s t p o :
  add_language STRLANG G ns pm = Ok G' →
  (s, TRANSLATIONS ns, Node t) ∈ triples G' → (t, p, o) ∉ triples G'.
Proof.
  intros (c & _ & HG' & _)%add_language_ok. rewrite HG'.
  intros [Hedge Hkept]%elem_of_delete_query [Hto _]%elem_of_delete_query.
  apply Hkept. exists s, t, p, o. eauto.
Qed.


(** A graph without a translations edge to a node that has a triple is
    returned as it is. *)
Lemma add_language_fixed G ns pm :
  Py.endswith ns "/" = true ∨ Py.endswith ns "#" = true →
  (∀ s t p o, (s, TRANSLATIONS ns, Node t) ∈ triples G → (t, p, o) ∉ triples G) →
  add_language STRLANG G ns pm = Ok G.
Proof.
  intros Hns Hnone.
  assert (Hbgp : construct_bgp (triples G) ns = []).
  { apply elem_of_nil_inv. intros [[[[s t] n] l] v] (H1 & H2 & _)%elem_of_construct_bgp.
    exact (Hnone _ _ _ _ H1 H2). }
  unfold add_language. rewrite (construct_query_none _ _ _ Hbgp).
  destruct Hns as [-> | ->]; simpl; rewrite ?orb_true_r; simpl;
    rewrite elements_empty; simpl; f_equal.
  all: assert (Hkeep : delete_query (triples G) ns = triples G);
    [apply set_eq; intros x; rewrite elem_of_delete_query; split; [by intros [? _]|];
     intros Hx; split; [done|]; intros (s & t & p & o & H1 & H2 & _);
     exact (Hnone _ _ _ _ H1 H2)|].
  all: rewrite Hkeep; by destruct G.
Qed.

End CleanerFacts.

(** ** The cleaner with the STRLANG of rdflib *)
Section TaggedLiterals.
Import Rdf.



End TaggedLiterals.

(** ** Claims about the cleaner *)
Section CleanerClaims.
Import Rdf.

Variable STRLANG : term → term → bind_outcome.


(** C8. A second run with the same arguments on the graph a first run has
    left returns that graph unchanged. *)
Theorem clean_idempotent (G : Graph) ns pm (G1 : Graph) :
  add_language STRLANG G ns pm = Ok G1 →
  add_language STRLANG G1 ns pm = Ok G1.
Proof.
  intros Hrun. apply add_language_fixed.
  - unfold add_language in Hrun.
    destruct (Py.endswith ns "/"); [by left|].
    destruct (Py.endswith ns "#"); [by right|done].
  - intros s t p o. by apply (cleaned_edge_target STRLANG G ns pm).
Qed.


End CleanerClaims.

(** ** The splitter *)
Section SplitterFacts.
Import Rdf.

Variable initial_namespaces : gmap string string.
Variable sequence : gset triple → list triple.

Implicit Types (h : heap) (G : Graph) (x : triple).

(** The listing of a set of matches holds each of them once. *)
Hypothesis sequence_perm : ∀ X, sequence X ≡ₚ elements X.

Lemma elem_of_sequence (X : gset triple) x : x ∈ sequence X ↔ x ∈ X.
Proof. by rewrite (sequence_perm X), elem_of_elements. Qed.

Lemma elem_of_triples_s G (s : node) x : x ∈ triples_s sequence G s ↔ x ∈ triples G ∧ x.1.1 = s.
Proof. unfold triples_s. rewrite elem_of_sequence, elem_of_filter. tauto. Qed.

Lemma elem_of_triples_po G (p : string) (o : term) x :
  x ∈ triples_po sequence G p o ↔ x ∈ triples G ∧ x.1.2 = p ∧ x.2 = o.
Proof. unfold triples_po. rewrite elem_of_sequence, elem_of_filter. tauto. Qed.

(** A new graph takes a reference that is not in use. *)
Lemma new_graph_fresh h : h !! (new_graph initial_namespaces h).1 = None.
Proof. simpl. apply not_elem_of_dom, is_fresh. Qed.

(** Adding to one graph leaves the others alone. *)
Lemma foldl_heap_add h (a : nat) (l : list triple) :
  (∀ r, r ≠ a → foldl (λ h x, heap_add h a x) h l !! r = h !! r) ∧
  foldl (λ h x, heap_add h a x) h l !! a = (λ G, foldl add G l) <$> h !! a.
Proof.
  revert h. induction l as [|x l IH]; intros h; simpl.
  { split; [done|]. by destruct (h !! a). }
  destruct (IH (heap_add h a x)) as [IHne IHeq]. split.
  - intros r Hr. rewrite IHne by done. unfold heap_add. by rewrite lookup_alter_ne.
  - rewrite IHeq. unfold heap_add. rewrite lookup_alter_eq. by destruct (h !! a).
Qed.

(** One assertion: a graph under a new reference, holding the triples of
    the subclass, and every other graph as before. *)
Lemma assertion_for_spec (g : nat) h G (subclass : node) tid (a : nat) h' :
  h !! g = Some G →
  assertion_for initial_namespaces sequence g h subclass = ((tid, a), h') →
  tid = term_id subclass ∧
  h !! a = None ∧
  h' !! a = Some (MkGraph (list_to_set (triples_s sequence G subclass)) initial_namespaces) ∧
  (∀ r, r ≠ a → h' !! r = h !! r).
Proof.
  intros Hg. unfold assertion_for.
  pose proof (new_graph_fresh h) as Hfresh. unfold new_graph in *. simpl in Hfresh.
  set (a0 := fresh (dom h)) in *.
  assert (Hne : g ≠ a0) by (intros ->; congruence).
  rewrite (lookup_total_correct _ g G) by (by rewrite lookup_insert_ne).
  intros [= <- <- <-].
  destruct (foldl_heap_add (<[a0:=MkGraph ∅ initial_namespaces]> h) a0 (triples_s sequence G subclass))
    as [Hother Hself].
  split_and!; [done..| |].
  - rewrite Hself, lookup_insert_eq. simpl.
    destruct (foldl_add (MkGraph ∅ initial_namespaces) (triples_s sequence G subclass)) as [Ht Hn].
    destruct (foldl add _ _) as [ts nss]. simpl in *. subst.
    f_equal. f_equal. clear. set_solver.
  - intros r Hr. rewrite Hother by done. by rewrite lookup_insert_ne.
Qed.

Lemma for_subclasses_spec (g : nat) h G matches pairs h' :
  h !! g = Some G →
  for_subclasses initial_namespaces sequence g h matches = (pairs, h') →
  (∀ r, is_Some (h !! r) → h' !! r = h !! r) ∧ yields initial_namespaces sequence h G h' matches pairs.
Proof.
  revert h pairs h'. induction matches as [|[[s p] o] matches IH]; intros h pairs h' Hg;
    cbn [for_subclasses].
  { intros [= <- <-]. split; [done|constructor]. }
  destruct (assertion_for initial_namespaces sequence g h s) as [[tid a] h1] eqn:H1.
  destruct (for_subclasses initial_namespaces sequence g h1 matches) as [pairs' h2] eqn:H2.
  simpl. intros [= <- <-].
  destruct (assertion_for_spec g h G s tid a h1 Hg H1) as (-> & Hnew & Ha & Hother).
  assert (Hg1 : h1 !! g = Some G).
  { rewrite Hother; [done|]. intros ->. congruence. }
  destruct (IH h1 pairs' h2 Hg1 H2) as [Hkeep Hrest]. split.
  - intros r Hr. rewrite Hkeep.
    + apply Hother. intros ->. rewrite Hnew in Hr. by destruct Hr.
    + rewrite Hother; [done|]. intros ->. rewrite Hnew in Hr. by destruct Hr.
  - constructor.
    + simpl. split_and!; [done..|]. rewrite Hkeep; [done|]. by rewrite Ha.
    + eapply Forall2_impl; [exact Hrest|]. simpl.
      intros m pr (? & Hfree & ?). split_and!; [done| |done].
      destruct (decide (pr.2 = a)) as [->|Hne]; [done|].
      by rewrite <- Hother.
Qed.

Lemma split_into_assertions_spec (g : nat) h G all_classes pairs h' :
  h !! g = Some G →
  split_into_assertions initial_namespaces sequence g h all_classes = (pairs, h') →
  (∀ r, is_Some (h !! r) → h' !! r = h !! r) ∧
  yields initial_namespaces sequence h G h' (matches_of sequence G all_classes) pairs.
Proof.
  revert h pairs h'. induction all_classes as [|clss all_classes IH]; intros h pairs h' Hg;
    cbn [split_into_assertions].
  { intros [= <- <-]. split; [done|constructor]. }
  rewrite (lookup_total_correct _ g G) by done.
  destruct (for_subclasses initial_namespaces sequence g h _) as [pairs1 h1] eqn:H1.
  destruct (split_into_assertions initial_namespaces sequence g h1 all_classes) as [pairs2 h2] eqn:H2.
  simpl. intros [= <- <-].
  destruct (for_subclasses_spec g h G _ pairs1 h1 Hg H1) as [Hkeep1 Hy1].
  assert (Hg1 : h1 !! g = Some G) by (rewrite Hkeep1; [done|by rewrite Hg]).
  destruct (IH h1 pairs2 h2 Hg1 H2) as [Hkeep2 Hy2]. split.
  - intros r Hr. rewrite Hkeep2; [by apply Hkeep1|]. by rewrite Hkeep1.
  - unfold matches_of. csimpl. apply Forall2_app.
    + eapply Forall2_impl; [exact Hy1|]. simpl.
      intros m pr (? & ? & Hpr). split_and!; [done..|].
      rewrite Hkeep2; [done|]. by rewrite Hpr.
    + eapply Forall2_impl; [exact Hy2|]. simpl.
      intros m pr (? & Hfree & ?). split_and!; [done| |done].
      destruct (h !! pr.2) as [G0|] eqn:Hh; [|done].
      rewrite Hkeep1 in Hfree by (by rewrite Hh). congruence.
Qed.

End SplitterFacts.

(** ** Claims about the splitter *)
Section SplitterClaims.
Import Rdf.

Variable initial_namespaces : gmap string string.
Variable sequence : gset triple → list triple.
Hypothesis sequence_perm : ∀ X, sequence X ≡ₚ elements X.

Lemma yields_pair h G h' matches pairs (pr : string * nat) :
  yields initial_namespaces sequence h G h' matches pairs → pr ∈ pairs →
  ∃ m, m ∈ matches ∧
       h' !! pr.2 = Some (MkGraph (list_to_set (triples_s sequence G m.1.1)) initial_namespaces).
Proof.
  unfold yields. induction 1 as [|m pr' matches pairs (_ & _ & Hpr) _ IH].
  { by intros ?%elem_of_nil. }
  intros [->|Hin]%elem_of_cons.
  - exists m. split; [left|done].
  - destruct (IH Hin) as (m' & Hm' & ?). exists m'. split; [by right|done].
Qed.

Lemma yields_match h G h' matches pairs (m : triple) :
  yields initial_namespaces sequence h G h' matches pairs → m ∈ matches →
  ∃ pr, pr ∈ pairs ∧
        h' !! pr.2 = Some (MkGraph (list_to_set (triples_s sequence G m.1.1)) initial_namespaces).
Proof.
  unfold yields. induction 1 as [|m' pr matches pairs (_ & _ & Hpr) _ IH].
  { by intros ?%elem_of_nil. }
  intros [->|Hin]%elem_of_cons.
  - exists pr. split; [left|done].
  - destruct (IH Hin) as (pr' & Hpr' & ?). exists pr'. split; [by right|done].
Qed.

Lemma elem_of_matches_of G (all_classes : list string) (m : triple) :
  m ∈ matches_of sequence G all_classes ↔
  m ∈ triples G ∧
  ∃ clss, clss ∈ all_classes ∧ m.1.2 = subClassOf ∧ m.2 = Node (URIRef (parent_of G clss)).
Proof.
  unfold matches_of. rewrite list_elem_of_bind. split.
  - intros (clss & (? & ? & ?)%(elem_of_triples_po _ sequence_perm) & ?). eauto 10.
  - intros (? & clss & ? & ? & ?). exists clss. by rewrite (elem_of_triples_po _ sequence_perm).
Qed.

(** C4. The triples of all the assertion graphs yielded for the parent
    classes [all_classes], taken together, are exactly the triples of the
    input graph whose subject has a direct [rdfs:subClassOf] edge to one of
    the parents; and no parent class, no pair. *)
Theorem split_completeness (g : nat) (h : heap) (G : Graph) all_classes pairs (h' : heap) :
  h !! g = Some G →
  split_into_assertions initial_namespaces sequence g h all_classes = (pairs, h') →
  (∀ x : triple,
     (∃ term_id assertion A,
        (term_id, assertion) ∈ pairs ∧ h' !! assertion = Some A ∧ x ∈ triples A) ↔
     (x ∈ triples G ∧
      ∃ clss, clss ∈ all_classes ∧
              (x.1.1, subClassOf, Node (URIRef (parent_of G clss))) ∈ triples G)) ∧
  (all_classes = [] → pairs = []).
Proof.
  intros Hg Hrun.
  destruct (split_into_assertions_spec _ _ _ _ _ _ _ _ Hg Hrun) as [_ Hy]. split.
  - intros x. split.
    + intros (tid & a & A & Hin & HA & Hx).
      destruct (yields_pair _ _ _ _ _ _ Hy Hin) as ([[s p] o] & Hm & Hlook).
      simpl in Hlook. rewrite HA in Hlook. injection Hlook as ->. simpl in Hx.
      apply elem_of_list_to_set, (elem_of_triples_s _ sequence_perm) in Hx as [Hx Hs].
      apply elem_of_matches_of in Hm as (Hm & clss & Hclss & Hp & Ho).
      simpl in *. subst. eauto.
    + intros (Hx & clss & Hclss & Hedge).
      assert (Hm : (x.1.1, subClassOf, Node (URIRef (parent_of G clss)))
                   ∈ matches_of sequence G all_classes).
      { apply elem_of_matches_of. eauto. }
      destruct (yields_match _ _ _ _ _ _ Hy Hm) as ([tid a] & Hin & Hlook).
      eexists tid, a, _. split_and!; [done..|]. simpl.
      by apply elem_of_list_to_set, (elem_of_triples_s _ sequence_perm).
  - intros ->. simpl in Hrun. by injection Hrun as <- _.
Qed.

(** C9. Consuming the generator to its end leaves the input graph, and
    every other graph that existed before the call, with the triples it
    had. *)
Theorem split_leaves_input (g : nat) (h : heap) (G : Graph) all_classes pairs (h' : heap) :
  h !! g = Some G →
  split_into_assertions initial_namespaces sequence g h all_classes = (pairs, h') →
  h' !! g = Some G ∧ ∀ r, is_Some (h !! r) → h' !! r = h !! r.
Proof.
  intros Hg Hrun.
  destruct (split_into_assertions_spec _ _ _ _ _ _ _ _ Hg Hrun) as [Hkeep _].
  split; [|done]. rewrite Hkeep; [done|]. by rewrite Hg.
Qed.

End SplitterClaims.

(** ** The graph claims at sample inputs *)

(** Closes an equation between closed terms by evaluating its left side. *)
Ltac evaluate :=
  lazymatch goal with |- _ = ?rhs => vm_cast_no_check (eq_refl rhs) end.

(** STRLANG at work: the tag is the text of the language term in lower
    case, whatever kind of term it is; a tag that is not well formed raises;
    a value with a datatype is an expression error, which binds nothing. *)
Example strlang_lowers_the_tag :
  Rdf.Builtin_STRLANG (Rdf.Lit (Rdf.plain "Foo")) (Rdf.Lit (Rdf.plain "EN-gb"))
  = Rdf.Bound (Rdf.Literal "Foo" (Some "en-gb") None).
Proof. reflexivity. Qed.

Example strlang_takes_the_text :
  Rdf.Builtin_STRLANG (Rdf.Lit (Rdf.plain "Foo"))
    (Rdf.Lit (Rdf.Literal "en" None (Some "http://www.w3.org/2001/XMLSchema#token")))
  = Rdf.Bound (Rdf.Literal "Foo" (Some "en") None).
Proof. reflexivity. Qed.

Example strlang_refuses_a_bad_tag :
  Rdf.Builtin_STRLANG (Rdf.Lit (Rdf.plain "Foo")) (Rdf.Lit (Rdf.plain "en_GB"))
  = Rdf.Abort (ValueError "'en_gb' is not a valid language tag!").
Proof. reflexivity. Qed.

Example strlang_skips_a_typed_value :
  Rdf.Builtin_STRLANG
    (Rdf.Lit (Rdf.Literal "1" None (Some "http://www.w3.org/2001/XMLSchema#integer")))
    (Rdf.Lit (Rdf.plain "en"))
  = Rdf.Unbound.
Proof. reflexivity. Qed.

(** With an empty map the query raises as soon as a node has the three
    attributes. *)
Example empty_map_raises :
  Rdf.add_language Rdf.Builtin_STRLANG Samples.translated Samples.base_ns ∅
  = Raise (AttributeError "'list' object has no attribute 'name'").
Proof. vm_compute. reflexivity. Qed.

(** A class name with an empty prefix is expanded when that prefix is
    bound. *)
Example empty_prefix_is_expanded :
  Rdf.parent_of (Rdf.MkGraph ∅ {[ "" := "http://example.org/" ]}) ":Parent"
  = "http://example.org/Parent".
Proof. vm_compute. reflexivity. Qed.

(** Scenario D of the specification. *)
Example translated_is_cleaned :
  Rdf.add_language Rdf.Builtin_STRLANG Samples.translated Samples.base_ns Samples.label_map
  = Ok Samples.translated_cleaned.
Proof. evaluate. Qed.

(** A well-formed node under a subject that is a translation node itself:
    the literal triple is constructed on that subject and deleted with it. *)
Example nested_is_emptied :
  Rdf.add_language Rdf.Builtin_STRLANG Samples.nested Samples.base_ns Samples.label_map
  = Ok (Rdf.MkGraph ∅ ∅).
Proof. evaluate. Qed.

(** Two translation nodes of one subject, one of them with a language
    only: both go, and the well-formed one leaves its literal. *)
Example mixed_is_cleaned :
  Rdf.add_language Rdf.Builtin_STRLANG Samples.mixed Samples.base_ns Samples.label_map
  = Ok Samples.translated_cleaned.
Proof. evaluate. Qed.



(** Scenario E of the specification, with a subclass of a subclass that is
    not followed. *)
Example ontology_is_split :
  Rdf.split_into_assertions ∅ elements 0 Samples.ontology_heap ["ex:Parent"]
  = ([("A", 1); ("B", 2)], Samples.split_heap).
Proof. evaluate. Qed.

Section RdfSamples.
Import Rdf Samples.



Lemma clean_idempotent_witness :
  add_language Builtin_STRLANG translated_cleaned base_ns label_map = Ok translated_cleaned.
Proof.
  apply (clean_idempotent Builtin_STRLANG translated base_ns label_map).
  exact translated_is_cleaned.
Defined.



Lemma split_completeness_witness :
  (∀ x : triple,
     (∃ term_id assertion A,
        (term_id, assertion) ∈ [("A", 1); ("B", 2)] ∧
        split_heap !! assertion = Some A ∧ x ∈ triples A) ↔
     (x ∈ triples ontology ∧
      ∃ clss, clss ∈ ["ex:Parent"] ∧
              (x.1.1, subClassOf, Node (URIRef (parent_of ontology clss))) ∈ triples ontology)) ∧
  (["ex:Parent"] = [] → [("A", 1); ("B", 2)] = []).
Proof.
  apply (split_completeness ∅ elements (λ X, reflexivity (elements X)) 0 ontology_heap
           ontology ["ex:Parent"] [("A", 1); ("B", 2)] split_heap).
  - apply lookup_singleton_eq.
  - exact ontology_is_split.
Defined.

Lemma split_leaves_input_witness :
  split_heap !! 0 = Some ontology ∧
  ∀ r, is_Some (ontology_heap !! r) → split_heap !! r = ontology_heap !! r.
Proof.
  apply (split_leaves_input ∅ elements 0 ontology_heap ontology ["ex:Parent"]
           [("A", 1); ("B", 2)] split_heap).
  - apply lookup_singleton_eq.
  - exact ontology_is_split.
Defined.

End RdfSamples.

(** * Further properties of the code *)

(** ** The validator *)
Section ValidatorFacts.
Import Py Mint.

Lemma startswith_inv (s p : string) :
  startswith s p = true → s = p +:+ drop (len p) s.
Proof.
  revert s. induction p as [|ch p IH]; intros s; [by destruct s|].
  destruct s as [|ch' s]; simpl; [done|].
  destruct (Ascii.eqb ch ch') eqn:Hch; [|done].
  apply Ascii.eqb_eq in Hch as ->. intros Hs. rewrite append_cons. f_equal. by apply IH.
Qed.

Lemma is_hex_newline : is_hex "010"%char = false.
Proof. reflexivity. Qed.

(** What the pattern accepts: [n] characters of the class, then nothing or
    one line feed. *)
Lemma match_hex_inv (n : nat) (s : string) :
  match_hex n s = true →
  ∃ u tail, s = u +:+ tail ∧ len u = n ∧ all_hex u = true ∧ (tail = "" ∨ tail = newline).
Proof.
  revert s. induction n as [|n IH]; intros s; simpl.
  - destruct s as [|ch [|ch' s]]; [| |done].
    + intros _. exists "", "". auto.
    + intros ->%Ascii.eqb_eq. exists "", newline. auto.
  - destruct s as [|ch s]; [done|].
    intros [Hch (u & tail & -> & Hlen & Hhex & Htail)%IH]%andb_true_iff.
    exists (String ch u), tail. split_and!; [done| |by simpl; rewrite Hch|done].
    unfold len in *. simpl. by rewrite Hlen.
Qed.

Lemma match_hex_intro (n : nat) (u tail : string) :
  len u = n → all_hex u = true → tail = "" ∨ tail = newline →
  match_hex n (u +:+ tail) = true.
Proof.
  unfold len. revert u. induction n as [|n IH]; intros [|ch u] Hlen Hhex Htail;
    simpl in *; try done.
  - by destruct Htail as [-> | ->].
  - apply andb_true_iff in Hhex as [-> Hhex]. rewrite ?append_cons. simpl.
    apply IH; [lia|done..].
Qed.

(** A string of the class that the pattern accepts has the exact length. *)
Lemma match_hex_len (n : nat) (s : string) :
  match_hex n s = true → all_hex s = true → len s = n.
Proof.
  intros (u & tail & -> & Hlen & _ & Htail)%match_hex_inv Hs.
  rewrite all_hex_append in Hs. apply andb_true_iff in Hs as [_ Htl].
  destruct Htail as [-> | ->]; [|done].
  rewrite len_append, Hlen. unfold len. simpl. lia.
Qed.

(** The validator reduced to the pattern on what follows the namespace and
    the type prefix. *)
Lemma is_valid_id_identifier_of (g : IdentifierGenerator) (rest method : string) (n : nat) :
  unique_pattern method = Some n →
  is_valid_id g (identifier_of g rest) method = Ok (match_hex n rest).
Proof.
  intros Hpat. unfold is_valid_id, identifier_of. rewrite Hpat.
  destruct (type_prefix g) as [tp|].
  - rewrite startswith_append, drop_append. simpl.
    rewrite <- (append_assoc tp "-" rest).
    by rewrite startswith_append, drop_append.
  - by rewrite startswith_append, drop_append.
Qed.

(** X1. For a supported method, [is_valid_id] returns [True] exactly for
    the keys made of the namespace, the type prefix and a dash when one is
    configured, the method's number of lowercase hexadecimal digits, and
    then nothing or one line feed. *)
Theorem is_valid_id_accepts (g : IdentifierGenerator) (key method : string) (n : nat) :
  unique_pattern method = Some n →
  is_valid_id g key method = Ok true ↔
  ∃ u tail, key = identifier_of g (u +:+ tail) ∧ len u = n ∧ all_hex u = true ∧
            (tail = "" ∨ tail = newline).
Proof.
  intros Hpat. split.
  - unfold is_valid_id. rewrite Hpat.
    destruct (startswith key (namespace g)) eqn:Hns; [|done]. simpl.
    apply startswith_inv in Hns. unfold identifier_of.
    destruct (type_prefix g) as [tp|].
    + destruct (startswith _ (tp +:+ "-")) eqn:Htp; [|done]. simpl.
      apply startswith_inv in Htp. intros [= Hm].
      apply match_hex_inv in Hm as (u & tail & Hrest & ?).
      exists u, tail. split; [|done].
      rewrite Hns at 1. f_equal. rewrite Htp at 1. rewrite append_assoc. by do 2 f_equal.
    + intros [= Hm]. apply match_hex_inv in Hm as (u & tail & Hrest & ?).
      exists u, tail. split; [|done]. rewrite Hns at 1. by f_equal.
  - intros (u & tail & -> & Hlen & Hhex & Htail).
    rewrite (is_valid_id_identifier_of g _ method n Hpat).
    by rewrite match_hex_intro.
Qed.

End ValidatorFacts.

(** ** The generator *)
Section GeneratorFacts.
Import Mint.

Variable urandom : nat → Z.

Lemma unique_part_hash entity attempts k :
  unique_part urandom "hash" entity attempts k =
  if (0 <? attempts)%Z
  then (Raise (TypeError "unhashable type: 'slice'"), k)
  else (Ok (Py.take 10 (hash_dict entity)), k).
Proof. unfold unique_part, getitem_slice. simpl. by destruct (0 <? attempts)%Z. Qed.

(** The pattern lengths of the two methods differ. *)
Lemma unique_pattern_inj method method' n :
  unique_pattern method = Some n → unique_pattern method' = Some n → method = method'.
Proof.
  unfold unique_pattern.
  destruct (String.eqb method "uuid") eqn:H1, (String.eqb method' "uuid") eqn:H2;
    try apply String.eqb_eq in H1; try apply String.eqb_eq in H2.
  - congruence.
  - destruct (String.eqb method' "hash"); [|done]. by intros [= <-] [=].
  - destruct (String.eqb method "hash"); [|done]. by intros [= <-] [=].
  - destruct (String.eqb method "hash") eqn:H3, (String.eqb method' "hash") eqn:H4;
      try done.
    apply String.eqb_eq in H3, H4. congruence.
Qed.

(** X2. An identifier that [generate_id] returns for one method is
    rejected by [is_valid_id] for the other supported method. *)
Theorem generate_id_other_method w entity method cc max_attempts preflabel X w' other m :
  generate_id urandom w entity method cc max_attempts preflabel = (Ok X, w') →
  unique_pattern other = Some m → other ≠ method →
  is_valid_id (self w') X other = Ok false.
Proof.
  unfold generate_id. intros Hgen Hother Hne.
  apply generate_loop_ok in Hgen as ((u & n & -> & Hpat & Hlen & Hhex) & Hns & Htp & _).
  rewrite (is_valid_id_registry (self w') (self w)) by done.
  rewrite (is_valid_id_identifier_of _ _ _ _ Hother). f_equal.
  destruct (Py.match_hex m u) eqn:Hm; [|done].
  apply match_hex_len in Hm; [|done]. subst.
  destruct Hne. by eapply unique_pattern_inj.
Qed.

(** After a collision the hash method never returns. *)
Lemma hash_loop_retry entity cc max_attempts preflabel remaining attempts w X w' :
  (0 < attempts)%Z →
  generate_loop urandom entity "hash" cc max_attempts preflabel remaining attempts w
  ≠ (Ok X, w').
Proof.
  intros Hpos. destruct remaining as [|remaining]; cbn [generate_loop]; [done|].
  rewrite unique_part_hash. apply Z.ltb_lt in Hpos. by rewrite Hpos.
Qed.

(** X3. Whatever the registry, the entropy, the collision flag and the
    budget of attempts are, an identifier returned for the hash method is
    the namespace (and type prefix) followed by the first ten digits of the
    digest of the record. *)
Theorem generate_id_hash_deterministic w entity cc max_attempts preflabel X w' :
  generate_id urandom w entity "hash" cc max_attempts preflabel = (Ok X, w') →
  X = identifier_of (self w) (Py.take 10 (hash_dict entity)).
Proof.
  unfold generate_id.
  destruct (Z.to_nat max_attempts) as [|remaining]; cbn [generate_loop]; [done|].
  rewrite unique_part_hash. change (0 <? 0)%Z with false. cbv iota beta zeta.
  destruct cc.
  - destruct (is_id_available (self w) _).
    + by intros [<- _]%ok_pair_inv.
    + intros H. by apply hash_loop_retry in H.
  - by intros [<- _]%ok_pair_inv.
Qed.

(** Whatever a call does, it keeps the namespace and the type prefix, and
    what was registered stays registered. *)
Lemma generate_loop_frame entity method cc max_attempts preflabel remaining attempts w :
  let w' := (generate_loop urandom entity method cc max_attempts preflabel
               remaining attempts w).2 in
  namespace (self w') = namespace (self w) ∧
  type_prefix (self w') = type_prefix (self w) ∧
  registered_ids (self w) ⊆ registered_ids (self w') ∧
  (cc = false → self w' = self w).
Proof.
  revert attempts w. induction remaining as [|remaining IH]; intros attempts w;
    cbn [generate_loop]; [done|].
  destruct (unique_part urandom method entity attempts (drawn w)) as [[u|e] k]; [|done].
  destruct cc.
  - destruct (is_id_available _ _).
    + simpl. split_and!; [done..| |done]. clear. set_solver.
    + apply (IH (attempts + 1)%Z (World (self w) k)).
  - done.
Qed.

(** X4. Across any sequence of calls of [generate_id] and [register_id],
    whatever each of them returns or raises, the generator keeps its
    namespace and type prefix and the registry only grows. *)
Theorem run_registry_grows (calls : list call) w :
  namespace (self (run urandom calls w).2) = namespace (self w) ∧
  type_prefix (self (run urandom calls w).2) = type_prefix (self w) ∧
  registered_ids (self w) ⊆ registered_ids (self (run urandom calls w).2).
Proof.
  revert w. induction calls as [|c calls IH]; intros w; cbn [run]; [done|].
  destruct c as [entity method cc max_attempts preflabel|identifier].
  - pose proof (generate_loop_frame entity method cc max_attempts preflabel
                  (Z.to_nat max_attempts) 0 w) as (Hns & Htp & Hreg & _).
    fold (generate_id urandom w entity method cc max_attempts preflabel) in *.
    destruct (generate_id urandom w entity method cc max_attempts preflabel) as [[Y|e] w1].
    + specialize (IH w1). destruct (run urandom calls w1) as [ids w2]. simpl in *.
      destruct IH as (-> & -> & IH). split_and!; [done..|]. by etrans.
    + specialize (IH w1). simpl in *.
      destruct IH as (-> & -> & IH). split_and!; [done..|]. by etrans.
  - specialize (IH (World (register_id (self w) identifier) (drawn w))).
    simpl in IH. destruct IH as (-> & -> & IH). split_and!; [done..|].
    etrans; [|exact IH]. clear. set_solver.
Qed.

(** X5. Without collision checking a call leaves the generator as it
    was, whether it returns or raises. *)
Theorem generate_id_unchecked_frame w entity method max_attempts preflabel :
  self (generate_id urandom w entity method false max_attempts preflabel).2 = self w.
Proof.
  unfold generate_id.
  by apply (generate_loop_frame entity method false max_attempts preflabel).
Qed.

(** X6. With collision checking, the identifier returned was available
    before the call, is not available after it, and the availability of
    every other identifier is as before. *)
Theorem generate_id_takes_available w entity method max_attempts preflabel X w' :
  generate_id urandom w entity method true max_attempts preflabel = (Ok X, w') →
  is_id_available (self w) X = true ∧
  is_id_available (self w') X = false ∧
  ∀ Y, Y ≠ X → is_id_available (self w') Y = is_id_available (self w) Y.
Proof.
  intros [Hnew Hreg]%generate_id_registers. unfold is_id_available. rewrite Hreg.
  split_and!.
  - by rewrite bool_decide_false.
  - rewrite bool_decide_true; [done|]. clear. set_solver.
  - intros Y HY.
    rewrite (bool_decide_ext (Y ∈ {[X]} ∪ registered_ids (self w))
               (Y ∈ registered_ids (self w))); [done|].
    clear -HY. set_solver.
Qed.

(** X7. With a budget of no attempt (zero or negative), [generate_id]
    raises what the statement after the loop raises, for every method,
    supported or not; nothing is registered and no entropy is drawn. *)
Theorem generate_id_no_budget w entity method cc max_attempts preflabel :
  (max_attempts ≤ 0)%Z →
  generate_id urandom w entity method cc max_attempts preflabel
  = (Raise (exhausted entity max_attempts preflabel), w).
Proof.
  intros Hmax. unfold generate_id.
  by replace (Z.to_nat max_attempts) with 0%nat by lia.
Qed.

(** X8. With a budget of one attempt or more, a method other than [uuid]
    and [hash] makes [generate_id] raise [ValueError] on its first attempt;
    nothing is registered and no entropy is drawn. *)
Theorem generate_id_unknown_method w entity method cc max_attempts preflabel :
  (1 ≤ max_attempts)%Z → method ≠ "uuid" → method ≠ "hash" →
  generate_id urandom w entity method cc max_attempts preflabel
  = (Raise (ValueError ("Unknown method: " +:+ method +:+
                        ". Available methods: uuid, hash, sequential, slug")), w).
Proof.
  intros Hmax Huuid%String.eqb_neq Hhash%String.eqb_neq. unfold generate_id.
  destruct (Z.to_nat max_attempts) as [|remaining] eqn:Hn; [lia|].
  cbn [generate_loop]. unfold unique_part. rewrite Huuid, Hhash. by destruct w.
Qed.

End GeneratorFacts.

(** ** The unique parts *)
Section UniquePartFacts.
Import Py Mint.

Lemma hex_go_acc (n : nat) (x : Z) (acc : string) :
  hex_go n x acc = hex_go n x "" +:+ acc.
Proof.
  revert x acc. induction n as [|n IH]; intros x acc; simpl; [done|].
  rewrite (IH _ (String _ acc)), (IH _ (String _ "")).
  by rewrite append_assoc.
Qed.

(** The leading digits of a number are the digits of its quotient. *)
Lemma hex_split (n m : nat) (x : Z) :
  hex (n + m) x = hex n (x / 16 ^ Z.of_nat m) +:+ hex m x.
Proof.
  unfold hex. revert x. induction m as [|m IH]; intros x.
  - rewrite Nat.add_0_r, Z.div_1_r. simpl. clear. induction (hex_go n x ""); [done|].
    rewrite append_cons. by f_equal.
  - replace (n + S m)%nat with (S (n + m)) by lia. simpl.
    rewrite (hex_go_acc (n + m)), (hex_go_acc m), IH.
    rewrite Z.div_div by lia.
    replace (16 * 16 ^ Z.of_nat m)%Z with (16 ^ Z.of_nat (S m))%Z
      by (rewrite Nat2Z.inj_succ, Z.pow_succ_r; lia).
    by rewrite append_assoc.
Qed.

(** Setting the version and the variant leaves the top 32 bits alone. *)
Lemma uuid4_int_top (random : Z) :
  (uuid4_int random / 2 ^ 96 = (random mod 2 ^ 128) / 2 ^ 96)%Z.
Proof.
  unfold uuid4_int. rewrite <- !Z.shiftr_div_pow2 by lia.
  rewrite Z.shiftr_lor, Z.shiftr_land, Z.shiftr_lor, Z.shiftr_land.
  change (Z.shiftr (Z.lnot (Z.shiftl 49152 48)) 96) with (-1)%Z.
  change (Z.shiftr (Z.shiftl 32768 48) 96) with 0%Z.
  change (Z.shiftr (Z.lnot (Z.shiftl 61440 64)) 96) with (-1)%Z.
  change (Z.shiftr (Z.shiftl 4 76) 96) with 0%Z.
  by rewrite !Z.land_m1_r, !Z.lor_0_r.
Qed.

(** X9. The unique part that the uuid method computes is the eight
    hexadecimal digits of the top 32 bits of the random draw: it depends on
    nothing else, neither the rest of the draw nor the record nor the
    attempt, and each attempt makes one draw. *)
Theorem unique_part_uuid (urandom : nat → Z) entity attempts k :
  unique_part urandom "uuid" entity attempts k
  = (Ok (hex 8 ((urandom k mod 2 ^ 128) / 2 ^ 96)), S k).
Proof.
  unfold unique_part. simpl (String.eqb _ _). cbv iota.
  rewrite uuid_first8. f_equal. f_equal.
  rewrite (hex_split 8 24), uuid4_int_top.
  change (16 ^ Z.of_nat 24)%Z with (2 ^ 96)%Z.
  rewrite <- (len_hex 8 ((urandom k mod 2 ^ 128) / 2 ^ 96)) at 1.
  apply take_append.
Qed.

End UniquePartFacts.

(** ** The canonical text *)
Section CanonicalFacts.
Import Json Mint.

Lemma key_le_leb {A} (kv kv' : string * A) : key_le kv kv' ↔ String.leb kv.1 kv'.1 = true.
Proof. unfold key_le, String.le. by rewrite Is_true_true. Qed.

Lemma key_le_trans {A} : Transitive (@key_le A).
Proof. intros x y z. unfold key_le. apply transitivity. Qed.

Lemma insert_item_perm {A} (kv : string * A) (l : list (string * A)) :
  insert_item kv l ≡ₚ kv :: l.
Proof.
  induction l as [|kv' l IH]; simpl; [done|].
  destruct (String.leb kv.1 kv'.1); [done|].
  rewrite IH. apply Permutation_swap.
Qed.

Lemma sort_items_perm {A} (l : list (string * A)) : sort_items l ≡ₚ l.
Proof.
  unfold sort_items. induction l as [|kv l IH]; simpl; [done|].
  by rewrite insert_item_perm, IH.
Qed.

Lemma insert_item_sorted {A} (kv : string * A) (l : list (string * A)) :
  Sorted key_le l → Sorted key_le (insert_item kv l).
Proof.
  induction 1 as [|kv' l Hl IH Hhd]; simpl.
  { repeat constructor. }
  destruct (String.leb kv.1 kv'.1) eqn:Hle.
  - constructor; [by constructor|]. constructor. by apply key_le_leb.
  - constructor; [done|].
    assert (Hge : key_le kv' kv).
    { apply key_le_leb. by destruct (String.leb_total kv.1 kv'.1) as [?|?]; [congruence|]. }
    destruct Hhd as [|kv'' l' Hhd]; simpl.
    + by constructor.
    + destruct (String.leb kv.1 kv''.1); by constructor.
Qed.

Lemma sort_items_sorted {A} (l : list (string * A)) : Sorted key_le (sort_items l).
Proof.
  unfold sort_items. induction l as [|kv l IH]; simpl; [constructor|].
  by apply insert_item_sorted.
Qed.

(** With distinct keys, a key has one value. *)
Lemma unique_key_value {A} (l : list (string * A)) (k : string) (v v' : A) :
  NoDup l.*1 → (k, v) ∈ l → (k, v') ∈ l → v = v'.
Proof.
  induction l as [|[k0 v0] l IH]; csimpl; [by intros _ ?%elem_of_nil|].
  intros [Hk0 Hnd]%NoDup_cons Hin Hin'.
  assert (Hkey : ∀ w, (k0, w) ∈ l → False).
  { intros w Hw. apply Hk0, list_elem_of_fmap. by exists (k0, w). }
  apply elem_of_cons in Hin as [Heq|Hin], Hin' as [Heq'|Hin'].
  - congruence.
  - injection Heq as -> ->. by destruct (Hkey v').
  - injection Heq' as -> ->. by destruct (Hkey v).
  - by apply IH.
Qed.

(** With distinct keys, sorting forgets the order the items came in. *)
Lemma sort_items_permutation {A} (l l' : list (string * A)) :
  NoDup l.*1 → l ≡ₚ l' → sort_items l = sort_items l'.
Proof.
  intros Hnd Hperm.
  apply (@Sorted_unique_strong _ key_le key_le_trans); [|apply sort_items_sorted..|].
  - intros [k v] [k' v'] Hin Hin' Hle Hge.
    rewrite sort_items_perm in Hin. rewrite sort_items_perm, <- Hperm in Hin'.
    assert (k = k') as <-.
    { apply (anti_symm String.le); [exact Hle|exact Hge]. }
    f_equal. by apply (unique_key_value l k).
  - by rewrite !sort_items_perm.
Qed.

Lemma dumps_dict (d : dict) :
  dumps (Dict d) =
  "{" +:+ Py.join ","
    (map (λ kv : string * string, encode_str kv.1 +:+ ":" +:+ kv.2)
         (sort_items (map (λ kv : string * value, (kv.1, dumps kv.2)) d))) +:+ "}".
Proof. reflexivity. Qed.

(** X10. Two records with the same items, in whatever order their distinct
    keys were inserted, have the same canonical text and so the same
    digest. *)
Theorem hash_dict_key_order (d d' : dict) :
  NoDup d.*1 → d ≡ₚ d' → hash_dict d = hash_dict d'.
Proof.
  intros Hnd Hperm. unfold hash_dict. rewrite !dumps_dict.
  rewrite (sort_items_permutation
             (map (λ kv : string * value, (kv.1, dumps kv.2)) d)
             (map (λ kv : string * value, (kv.1, dumps kv.2)) d')); [done| |].
  - by rewrite <- list_fmap_compose.
  - by apply fmap_Permutation.
Qed.

End CanonicalFacts.

(** ** More on the cleaner *)
Section CleanerMore.
Import Rdf.

Variable STRLANG : term → term → bind_outcome.




End CleanerMore.

(** ** More on the splitter *)
Section SplitterMore.
Import Rdf.

Variable initial_namespaces : gmap string string.
Variable sequence : gset triple → list triple.
Hypothesis sequence_perm : ∀ X, sequence X ≡ₚ elements X.

Lemma yields_term_ids h G h' matches pairs :
  yields initial_namespaces sequence h G h' matches pairs →
  pairs.*1 = (λ m : triple, term_id m.1.1) <$> matches.
Proof.
  unfold yields. induction 1 as [|m pr matches pairs (Hid & _) _ IH]; csimpl; [done|].
  by rewrite Hid, IH.
Qed.

Lemma yields_segments h G h' (all_classes : list string) pairs :
  yields initial_namespaces sequence h G h' (matches_of sequence G all_classes) pairs →
  ∃ segments : list (list (string * nat)),
    pairs = concat segments ∧
    Forall2 (λ clss segment,
      segment.*1 = (λ m : triple, term_id m.1.1)
                   <$> triples_po sequence G subClassOf (Node (URIRef (parent_of G clss))))
      all_classes segments.
Proof.
  unfold matches_of. revert pairs.
  induction all_classes as [|clss all_classes IH]; intros pairs; csimpl.
  { intros ->%Forall2_nil_inv_l. exists []. split; [done|constructor]. }
  intros (pairs1 & pairs2 & H1 & H2 & ->)%Forall2_app_inv_l.
  destruct (IH _ H2) as (segments & -> & Hsegments).
  exists (pairs1 :: segments). split; [done|]. constructor; [|done].
  by eapply yields_term_ids.
Qed.

Lemma subjects_of_matches G (parent : string) :
  (λ m : triple, m.1.1) <$> triples_po sequence G subClassOf (Node (URIRef parent))
  ≡ₚ elements (direct_subclasses G parent).
Proof.
  unfold triples_po, direct_subclasses. rewrite (sequence_perm _).
  set (X := filter _ (triples G)).
  apply NoDup_Permutation.
  - apply (NoDup_fmap_2_strong _); [|apply NoDup_elements].
    intros [[s1 p1] o1] [[s2 p2] o2] [[? ?] _]%elem_of_elements%elem_of_filter
      [[? ?] _]%elem_of_elements%elem_of_filter ?. simpl in *. congruence.
  - apply NoDup_elements.
  - intros s. rewrite list_elem_of_fmap, elem_of_elements, elem_of_map.
    split; intros (x & ? & ?); exists x; by rewrite ?elem_of_elements in *.
Qed.

(** X14. The generator yields its pairs class after class, in the order
    the parent classes are iterated in; for one class it yields one pair
    for each subject that has an [rdfs:subClassOf] edge to the parent, once
    each, in the order the store lists them. A subject with edges to two of
    the parents is yielded twice. *)
Theorem split_one_pair_per_edge (g : nat) (h : heap) (G : Graph) all_classes pairs (h' : heap) :
  h !! g = Some G →
  split_into_assertions initial_namespaces sequence g h all_classes = (pairs, h') →
  ∃ segments : list (list (string * nat)),
    pairs = concat segments ∧
    Forall2 (λ clss segment,
      segment.*1 ≡ₚ term_id <$> elements (direct_subclasses G (parent_of G clss)))
      all_classes segments.
Proof.
  intros Hg Hrun.
  destruct (split_into_assertions_spec _ _ _ _ _ _ _ _ Hg Hrun) as [_ Hy].
  destruct (yields_segments _ _ _ _ _ Hy) as (segments & -> & Hsegments).
  exists segments. split; [done|].
  eapply Forall2_impl; [exact Hsegments|]. intros clss segment ->. simpl.
  rewrite <-(subjects_of_matches G (parent_of G clss)).
  by rewrite <-list_fmap_compose.
Qed.

(** X15. Every assertion graph that is yielded holds triples of one
    subject only, all of them triples of the input graph, among them the
    [rdfs:subClassOf] edge to a parent class that made it a match (so it is
    never empty); its term identifier is derived from that subject; and it
    starts from the prefix bindings of a new graph, not from those of the
    input graph. *)
Theorem split_assertion_shape (g : nat) (h : heap) (G : Graph) all_classes pairs (h' : heap)
    (tid : string) (a : nat) :
  h !! g = Some G →
  split_into_assertions initial_namespaces sequence g h all_classes = (pairs, h') →
  (tid, a) ∈ pairs →
  ∃ A s clss,
    h' !! a = Some A ∧ tid = term_id s ∧
    namespaces A = initial_namespaces ∧
    triples A ⊆ triples G ∧
    (∀ x, x ∈ triples A → x.1.1 = s) ∧
    clss ∈ all_classes ∧
    (s, subClassOf, Node (URIRef (parent_of G clss))) ∈ triples A.
Proof.
  intros Hg Hrun Hin.
  destruct (split_into_assertions_spec _ _ _ _ _ _ _ _ Hg Hrun) as [_ Hy].
  assert (Hpair : ∃ m, m ∈ matches_of sequence G all_classes ∧ tid = term_id m.1.1 ∧
    h' !! a = Some (MkGraph (list_to_set (triples_s sequence G m.1.1)) initial_namespaces)).
  { clear -Hy Hin. unfold yields in Hy.
    induction Hy as [|m pr matches pairs (Hid & _ & Hpr) _ IH]; [by apply elem_of_nil in Hin|].
    apply elem_of_cons in Hin as [<-|Hin].
    - exists m. split_and!; [left|done..].
    - destruct (IH Hin) as (m' & ? & ?). exists m'. split; [by right|done]. }
  destruct Hpair as ([[s p] o] & Hm & -> & HA). simpl in *.
  apply (elem_of_matches_of _ sequence_perm) in Hm as (Hm & clss & Hclss & Hp & Ho). simpl in *. subst.
  eexists _, s, clss. split_and!; [exact HA|done..| | |done|]; simpl.
  - intros x [? _]%elem_of_list_to_set%(elem_of_triples_s _ sequence_perm). done.
  - intros x [_ ?]%elem_of_list_to_set%(elem_of_triples_s _ sequence_perm). done.
  - by apply elem_of_list_to_set, (elem_of_triples_s _ sequence_perm).
Qed.

End SplitterMore.

(** ** The graphs the splitter creates *)
Section SplitterRefs.
Import Rdf.

Variable initial_namespaces : gmap string string.
Variable sequence : gset triple → list triple.
Hypothesis sequence_perm : ∀ X, sequence X ≡ₚ elements X.

Lemma for_subclasses_refs (g : nat) h G matches pairs h' :
  h !! g = Some G →
  for_subclasses initial_namespaces sequence g h matches = (pairs, h') →
  handed_out h h' pairs.*2.
Proof.
  revert h pairs h'. induction matches as [|[[s p] o] matches IH]; intros h pairs h' Hg;
    cbn [for_subclasses].
  { intros [= <- <-]. split; constructor. }
  destruct (assertion_for initial_namespaces sequence g h s) as [[tid a] h1] eqn:H1.
  destruct (for_subclasses initial_namespaces sequence g h1 matches) as [pairs' h2] eqn:H2.
  simpl. intros [= <- <-].
  destruct (assertion_for_spec _ _ g h G s tid a h1 Hg H1) as (_ & Hnew & Ha & Hother).
  assert (Hg1 : h1 !! g = Some G).
  { rewrite Hother; [done|]. intros ->. congruence. }
  destruct (IH h1 pairs' h2 Hg1 H2) as [Hnd Hall].
  destruct (for_subclasses_spec _ _ g h1 G matches pairs' h2 Hg1 H2) as [Hkeep _].
  rewrite Forall_forall in Hall. split; csimpl.
  - constructor; [|done]. intros Hin. apply Hall in Hin as [Hfree _]. congruence.
  - constructor.
    + split; [done|]. rewrite Hkeep; by rewrite Ha.
    + apply Forall_forall. intros b Hb. destruct (Hall b Hb) as [Hfree Hlive].
      split; [|done]. destruct (decide (b = a)) as [->|Hne]; [done|].
      by rewrite <- Hother.
Qed.

(** X16. Every pair carries a graph object of its own: the references
    yielded are pairwise distinct and none of them referred to a graph
    before the call, so that no assertion graph is the input graph or
    another assertion graph under a second name. *)
Theorem split_fresh_graphs (g : nat) (h : heap) (G : Graph) all_classes pairs (h' : heap) :
  h !! g = Some G →
  split_into_assertions initial_namespaces sequence g h all_classes = (pairs, h') →
  NoDup pairs.*2 ∧ ∀ a, a ∈ pairs.*2 → h !! a = None ∧ a ≠ g.
Proof.
  intros Hg Hrun.
  assert (Hout : handed_out h h' pairs.*2).
  { revert h pairs h' Hg Hrun.
    induction all_classes as [|clss all_classes IH]; intros h pairs h' Hg;
      cbn [split_into_assertions].
    { intros [= <- <-]. split; constructor. }
    rewrite (lookup_total_correct _ g G) by done.
    destruct (for_subclasses initial_namespaces sequence g h _) as [pairs1 h1] eqn:H1.
    destruct (split_into_assertions initial_namespaces sequence g h1 all_classes)
      as [pairs2 h2] eqn:H2.
    simpl. intros [= <- <-].
    destruct (for_subclasses_refs g h G _ pairs1 h1 Hg H1) as [Hnd1 Hall1].
    destruct (for_subclasses_spec _ _ g h G _ pairs1 h1 Hg H1) as [Hkeep1 _].
    assert (Hg1 : h1 !! g = Some G) by (rewrite Hkeep1; [done|by rewrite Hg]).
    destruct (IH h1 pairs2 h2 Hg1 H2) as [Hnd2 Hall2].
    destruct (split_into_assertions_spec _ _ g h1 G all_classes pairs2 h2 Hg1 H2)
      as [Hkeep2 _].
    rewrite Forall_forall in Hall1, Hall2. rewrite fmap_app. split.
    - apply NoDup_app. split_and!; [done| |done].
      intros a [_ Hlive]%Hall1 [Hfree _]%Hall2. rewrite Hfree in Hlive. by destruct Hlive.
    - apply Forall_app. split; apply Forall_forall.
      + intros a [Hfree Hlive]%Hall1. split; [done|]. by rewrite Hkeep2.
      + intros a [Hfree Hlive]%Hall2. split; [|done].
        destruct (h !! a) as [G0|] eqn:Hh; [|done].
        rewrite Hkeep1 in Hfree by (by rewrite Hh). congruence. }
  destruct Hout as [Hnd Hall]. split; [done|].
  rewrite Forall_forall in Hall. intros a [Hfree _]%Hall.
  split; [done|]. intros ->. congruence.
Qed.

End SplitterRefs.

(** ** Term identifiers *)
Section TermIdFacts.
Import Py Rdf.

Lemma after_last_none (c : ascii) (s : string) :
  contains c s = false → after_last c s = s.
Proof.
  destruct s as [|ch s]; simpl; [done|].
  intros [Hch Hs]%orb_false_iff. by rewrite Hch, Hs.
Qed.

(** With an occurrence of [c], the string is a head, the last [c], and
    what [after_last] returns, which has no [c]. *)
Lemma after_last_some (c : ascii) (s : string) :
  contains c s = true →
  ∃ p, s = p +:+ String c (after_last c s) ∧ contains c (after_last c s) = false.
Proof.
  induction s as [|ch s IH]; simpl; [done|].
  destruct (contains c s) eqn:Hs.
  - intros _. destruct (IH eq_refl) as (p & Hp & Hnone).
    exists (String ch p). split; [|by destruct (Ascii.eqb ch c)].
    rewrite append_cons. f_equal.
    by destruct (Ascii.eqb ch c).
  - rewrite orb_false_r. intros Hch. rewrite Hch.
    apply Ascii.eqb_eq in Hch as ->.
    rewrite (after_last_none c s Hs). by exists "".
Qed.

(** X17. The term identifier of a node is the part of its text after the
    last [#] when there is one, and then it holds no [#]; else the part
    after the last [/] when there is one, and then it holds neither; else
    the whole text. *)
Theorem term_id_spec (subclass : node) :
  let text := node_str subclass in
  if contains "#" text then
    ∃ p, text = p +:+ "#" +:+ term_id subclass ∧ contains "#" (term_id subclass) = false
  else if contains "/" text then
    ∃ p, text = p +:+ "/" +:+ term_id subclass ∧
         contains "/" (term_id subclass) = false ∧ contains "#" (term_id subclass) = false
  else term_id subclass = text.
Proof.
  simpl. unfold term_id.
  destruct (contains "#" (node_str subclass)) eqn:Hhash.
  { by apply after_last_some. }
  destruct (contains "/" (node_str subclass)) eqn:Hslash.
  - destruct (after_last_some _ _ Hslash) as (p & Hp & Hnone).
    exists p. split_and!; [done..|].
    rewrite Hp in Hhash. clear -Hhash.
    induction p as [|ch p IH].
    + rewrite append_nil in Hhash. simpl in Hhash. done.
    + rewrite append_cons in Hhash. simpl in Hhash.
      apply orb_false_iff in Hhash as [_ Hhash]. by apply IH.
  - by apply after_last_none.
Qed.

End TermIdFacts.

(** ** The minting command *)
Section MintCliFacts.
Import Json Mint MintCli.

Variable urandom : nat → Z.

Lemma get_set_eq (d : dict) k v : get (set d k v) k = v.
Proof.
  induction d as [|[k' v'] d IH]; simpl.
  - by rewrite String.eqb_refl.
  - destruct (String.eqb k' k) eqn:Hk; simpl; by rewrite Hk.
Qed.

Lemma get_set_ne (d : dict) k k' v : k' ≠ k → get (set d k v) k' = get d k'.
Proof.
  intros Hne. induction d as [|[k0 v0] d IH]; simpl.
  - apply not_eq_sym, String.eqb_neq in Hne. by rewrite Hne.
  - destruct (String.eqb k0 k) eqn:Hk; simpl; [|by rewrite IH].
    apply String.eqb_eq in Hk as ->.
    apply not_eq_sym, String.eqb_neq in Hne. by rewrite Hne.
Qed.

Lemma has_key_set (d : dict) k v : has_key (set d k v) k = true.
Proof.
  induction d as [|[k' v'] d IH]; simpl.
  - by rewrite String.eqb_refl.
  - destruct (String.eqb k' k) eqn:Hk; simpl; rewrite Hk; [done|]. by rewrite IH.
Qed.

Lemma set_set (d : dict) k v v' : set (set d k v) k v' = set d k v'.
Proof.
  induction d as [|[k' v0] d IH]; simpl.
  - by rewrite String.eqb_refl.
  - destruct (String.eqb k' k) eqn:Hk; simpl; rewrite Hk; [done|]. by rewrite IH.
Qed.

(** An identifier that the validator accepts is not the empty string. *)
Lemma valid_id_nonempty (g : IdentifierGenerator) key method :
  is_valid_id g key method = Ok true → key ≠ "".
Proof.
  intros Hvalid ->. unfold is_valid_id, unique_pattern in Hvalid.
  destruct (namespace g) as [|ch ns]; simpl in Hvalid; [|done].
  destruct (String.eqb method "uuid"), (String.eqb method "hash"),
    (type_prefix g) as [[|ch tp]|]; simpl in Hvalid; done.
Qed.

Lemma keeps_some (g : IdentifierGenerator) current_id method force key :
  keeps g current_id method force = Ok (Some key) →
  current_id = Str key ∧ is_valid_id g key method = Ok true.
Proof.
  unfold keeps. destruct (truthy current_id && negb force); [|done].
  destruct current_id as [| | |s| |]; try done.
  destruct (is_valid_id g s method) as [[|]|] eqn:Hvalid; try done.
  by intros [= <-].
Qed.

Lemma keeps_valid (g : IdentifierGenerator) key method :
  is_valid_id g key method = Ok true → keeps g (Str key) method false = Ok (Some key).
Proof.
  intros Hvalid. unfold keeps. simpl.
  pose proof (valid_id_nonempty _ _ _ Hvalid) as Hne%String.eqb_neq.
  by rewrite Hne, Hvalid.
Qed.

Lemma mint_loop_minted id_key method force preflabel i entities w n out n' w' :
  mint_loop urandom id_key method force preflabel i entities w n = Done (out, n', w') →
  Forall (minted (self w) id_key method preflabel) out.
Proof.
  revert i w n out n' w'.
  induction entities as [|e entities IH]; intros i w n out n' w'; cbn [mint_loop].
  { intros [= <- _ _]. constructor. }
  destruct e as [| | | | |d]; try done.
  destruct (truthy (get d preflabel)) eqn:Hlabel; simpl; [|done].
  destruct (keeps (self w) (get d id_key) method force) as [[key|]|e] eqn:Hkeep; [| |done].
  - destruct (mint_loop _ _ _ _ _ _ _ _ _) as [[[out1 n1] w1]|f] eqn:Hrest; [|done].
    intros [= <- <- <-]. apply keeps_some in Hkeep as [Hid Hvalid].
    constructor; [by exists d, key|].
    eapply Forall_impl; [exact (IH _ _ _ _ _ _ Hrest)|].
    intros e (d' & key' & ? & ? & Hv & ?). by exists d', key'.
  - destruct (generate_id urandom w d method true 10 preflabel) as [[X|e] w1] eqn:Hgen;
      [|done].
    destruct (mint_loop _ _ _ _ _ _ _ _ _) as [[[out1 n1] w2]|f] eqn:Hrest; [|done].
    intros [= <- <- <-].
    pose proof (generate_id_valid_any _ _ _ _ _ _ _ _ _ Hgen) as Hvalid.
    unfold generate_id in Hgen.
    apply generate_loop_ok in Hgen as (_ & Hns & Htp & _).
    constructor.
    + exists (set d id_key (Str X)), X. split_and!; [done|apply get_set_eq| |].
      * by rewrite (is_valid_id_registry _ (self w1)).
      * destruct (decide (preflabel = id_key)) as [->|Hne].
        -- rewrite get_set_eq. simpl.
           apply valid_id_nonempty, String.eqb_neq in Hvalid. by rewrite Hvalid.
        -- by rewrite get_set_ne.
    + eapply Forall_impl; [exact (IH _ _ _ _ _ _ Hrest)|].
      intros e (d' & key' & ? & ? & Hv & ?). exists d', key'. split_and!; try done.
      by rewrite (is_valid_id_registry _ (self w1)).
Qed.

(** X18. When the command succeeds, every entity of the target list is a
    mapping that carries, under the identifier key, an identifier that
    [is_valid_id] accepts for the namespace and the method of the run. *)
Theorem mint_all_valid yaml_root target_name namespace id_key method force preflabel
    yaml_root' n :
  mint urandom yaml_root target_name namespace id_key method force preflabel
  = Done (yaml_root', n) →
  ∃ out, get yaml_root' target_name = List out ∧
    Forall (λ e, ∃ d key, e = Dict d ∧ get d id_key = Str key ∧
                          is_valid_id (init namespace None) key method = Ok true) out.
Proof.
  unfold mint. destruct (has_key yaml_root target_name); [|done]. simpl.
  destruct (get yaml_root target_name) as [| | | |entities|]; try done.
  destruct (mint_loop _ _ _ _ _ _ _ _ _) as [[[out n1] w1]|f] eqn:Hloop; [|done].
  intros [= <- <-]. exists out. split; [apply get_set_eq|].
  eapply Forall_impl; [exact (mint_loop_minted _ _ _ _ _ _ _ _ _ _ _ Hloop)|].
  intros e (d & key & ? & ? & ? & _). by exists d, key.
Qed.

(** Entities that are already minted are all kept, whatever the entropy. *)
Lemma mint_loop_keeps (u : nat → Z) id_key method preflabel i entities w n :
  Forall (minted (self w) id_key method preflabel) entities →
  ∃ w', mint_loop u id_key method false preflabel i entities w n
        = Done (entities, n, w').
Proof.
  revert i w. induction entities as [|e entities IH]; intros i w Hall; cbn [mint_loop].
  { eauto. }
  apply Forall_cons in Hall as [(d & key & -> & Hid & Hvalid & Hlabel) Hall].
  rewrite Hlabel, Hid. simpl. rewrite (keeps_valid _ _ _ Hvalid).
  destruct (IH (S i) (World (register_id (self w) key) (drawn w))) as [w' ->]; [|eauto].
  eapply Forall_impl; [exact Hall|].
  intros e (d' & key' & ? & ? & Hv & ?). by exists d', key'.
Qed.

(** X20. The command is idempotent: run again without [--force] on the
    root that a successful run has produced (whatever the entropy of the
    second run is), it succeeds, mints no identifier and returns that root
    unchanged. *)
Theorem mint_rerun (urandom' : nat → Z) yaml_root target_name namespace id_key method
    force preflabel yaml_root' n :
  mint urandom yaml_root target_name namespace id_key method force preflabel
  = Done (yaml_root', n) →
  mint urandom' yaml_root' target_name namespace id_key method false preflabel
  = Done (yaml_root', 0%nat).
Proof.
  unfold mint at 1. destruct (has_key yaml_root target_name); [|done]. simpl.
  destruct (get yaml_root target_name) as [| | | |entities|]; try done.
  destruct (mint_loop _ _ _ _ _ _ _ _ _) as [[[out n1] w1]|f] eqn:Hloop; [|done].
  intros [= <- <-]. unfold mint. rewrite has_key_set, get_set_eq. simpl.
  apply mint_loop_minted in Hloop.
  destruct (mint_loop_keeps urandom' id_key method preflabel 0 out
              (World (init namespace None) 0) 0 Hloop) as [w' ->].
  by rewrite set_set.
Qed.

End MintCliFacts.

(** ** What the minting command guarantees and refuses *)
Section MintCliMore.
Import Json Mint MintCli.

Variable urandom : nat → Z.

Lemma mint_loop_refuses id_key method force preflabel i entities w n :
  Exists (unlabelled preflabel) entities →
  ∃ f, mint_loop urandom id_key method force preflabel i entities w n = Failed f.
Proof.
  intros Hbad. revert i w n.
  induction Hbad as [e entities Hbad|e entities _ IH]; intros i w n; cbn [mint_loop].
  - destruct e as [| | | | |d]; eauto. by rewrite (Hbad d eq_refl); eauto.
  - destruct e as [| | | | |d]; eauto.
    destruct (truthy (get d preflabel)); simpl; [|eauto].
    destruct (keeps (self w) (get d id_key) method force) as [[key|]|e]; [| |eauto].
    + by destruct (IH (S i) (World (register_id (self w) key) (drawn w)) n) as [f ->]; eauto.
    + destruct (generate_id urandom w d method true 10 preflabel) as [[X|e] w1]; [|eauto].
      by destruct (IH (S i) w1 (S n)) as [f ->]; eauto.
Qed.

(** X22. The command fails as a whole when one entity of the target
    list, wherever it stands, is not a mapping or has no label that is
    true: no root is returned, not even with the identifiers minted for the
    entities before it. *)
Theorem mint_refuses_unlabelled yaml_root target_name namespace id_key method force
    preflabel entities :
  get yaml_root target_name = List entities →
  Exists (unlabelled preflabel) entities →
  ∃ f, mint urandom yaml_root target_name namespace id_key method force preflabel
       = Failed f.
Proof.
  intros Hentities Hbad. unfold mint. rewrite Hentities.
  destruct (has_key yaml_root target_name); simpl; [|eauto].
  destruct (mint_loop_refuses id_key method force preflabel 0 entities
              (World (init namespace None) 0) 0 Hbad) as [f ->].
  eauto.
Qed.

End MintCliMore.

(** ** The minting command on shared objects *)
Section MintSharedFacts.
Import Json Mint MintShared.

Variable urandom : nat → Z.

Lemma shared_get_set_eq (d : list (string * val)) k v : get (set d k v) k = v.
Proof.
  induction d as [|[k' v'] d IH]; simpl.
  - by rewrite String.eqb_refl.
  - destruct (String.eqb k' k) eqn:Hk; simpl; by rewrite Hk.
Qed.

Lemma shared_get_set_ne (d : list (string * val)) k k' v :
  k' ≠ k → get (set d k v) k' = get d k'.
Proof.
  intros Hne. induction d as [|[k0 v0] d IH]; simpl.
  - apply not_eq_sym, String.eqb_neq in Hne. by rewrite Hne.
  - destruct (String.eqb k0 k) eqn:Hk; simpl; [|by rewrite IH].
    apply String.eqb_eq in Hk as ->.
    apply not_eq_sym, String.eqb_neq in Hne. by rewrite Hne.
Qed.

(** Only the hash method reads the entity. *)
Lemma generate_loop_entity (e e' : dict) method cc max_attempts preflabel remaining attempts w :
  method ≠ "hash" →
  generate_loop urandom e method cc max_attempts preflabel remaining attempts w
  = generate_loop urandom e' method cc max_attempts preflabel remaining attempts w.
Proof.
  intros Hm%String.eqb_neq. revert attempts w.
  induction remaining as [|remaining IH]; intros attempts w; cbn [generate_loop].
  { done. }
  unfold unique_part. rewrite Hm.
  destruct (String.eqb method "uuid"); [|done].
  destruct cc; [|done]. destruct (is_id_available _ _); [done|]. apply IH.
Qed.

(** Whatever [generate] returns, [generate_id] has returned it for some
    record. *)
Lemma generate_ok (st : store) w r method preflabel X w' :
  generate urandom st w r method preflabel = (Ok X, w') →
  ∃ entity, generate_id urandom w entity method true 10 preflabel = (Ok X, w').
Proof.
  unfold generate. destruct (to_json st (VRef r)) as [[| | | | |entity]|]; eauto;
    destruct (String.eqb method "hash"); eauto; done.
Qed.

Lemma ids_written_refl id_key written (st : store) : ids_written id_key written st st.
Proof. intros r. destruct (st !! r) as [[items|items]|]; eauto. Qed.

Lemma ids_written_mono id_key written written' (st st' : store) :
  (∀ e, e ∈ written → e ∈ written') →
  ids_written id_key written st st' → ids_written id_key written' st st'.
Proof.
  intros Hsub H r. specialize (H r). destruct (st !! r) as [[items|items]|]; [done| |done].
  destruct H as (items' & ? & ? & Hsame). exists items'. split_and!; [done..|].
  intros Hr. apply Hsame. intros ?. by apply Hr, Hsub.
Qed.

(** The loop writes identifiers to its entities and nothing else. *)
Lemma mint_loop_writes id_key method force preflabel i entities (st : store) w n st' n' w' :
  mint_loop urandom id_key method force preflabel i entities st w n = Done (st', n', w') →
  ids_written id_key entities st st'.
Proof.
  revert i st w n. induction entities as [|e entities IH]; intros i st w n; cbn [mint_loop].
  { intros [= <- _ _]. apply ids_written_refl. }
  destruct e as [| | | |r0]; try done.
  destruct (st !! r0) as [[|d0]|] eqn:Hr0; try done.
  destruct (truthy st (get d0 preflabel)); simpl; [|done].
  destruct (keeps st (self w) (get d0 id_key) method force) as [[key|]|e]; [| |done].
  - intros Hrest%IH. eapply ids_written_mono; [|exact Hrest]. intros e ?. by right.
  - destruct (generate urandom st w r0 method preflabel) as [[X|e] w1]; [|done].
    intros Hrest%IH r. specialize (Hrest r).
    destruct (decide (r = r0)) as [->|Hne].
    + rewrite Hr0. rewrite lookup_insert_eq in Hrest.
      destruct Hrest as (items' & Hst' & Hkeys & _). exists items'. split_and!; [done| |].
      * intros k Hk. rewrite (Hkeys k Hk). by apply shared_get_set_ne.
      * intros Hout. destruct Hout. left.
    + rewrite lookup_insert_ne in Hrest by done.
      destruct (st !! r) as [[items|items]|]; [done| |done].
      destruct Hrest as (items' & ? & ? & Hsame). exists items'. split_and!; [done..|].
      intros Hout. apply Hsame. intros Hin. apply Hout. by right.
Qed.


(** Writing an identifier to a mapping that is not empty changes the
    truth of no value. *)
Lemma truthy_write (st : store) r0 d0 k v x :
  st !! r0 = Some (ODict d0) → d0 ≠ [] →
  truthy (<[r0 := ODict (set d0 k v)]> st) x = truthy st x.
Proof.
  intros Hr0 Hd0. destruct x as [| | | |r]; try done. simpl.
  destruct (decide (r = r0)) as [->|Hne].
  - rewrite lookup_insert_eq, Hr0. destruct d0 as [|[k0 v0] d0]; [done|].
    simpl. by destruct (String.eqb k0 k).
  - by rewrite lookup_insert_ne.
Qed.

Lemma mint_loop_distinct id_key method force preflabel i entities (st : store) w n st' n' w' :
  NoDup entities →
  force = true ∨ Forall (unidentified st id_key) entities →
  mint_loop urandom id_key method force preflabel i entities st w n = Done (st', n', w') →
  ∃ ids, Forall2 (id_in st' id_key) entities ids ∧ NoDup ids ∧
         (∀ X, X ∈ ids → X ∉ registered_ids (self w)) ∧
         n' = (n + length entities)%nat.
Proof.
  revert i st w n. induction entities as [|e entities IH]; intros i st w n Hnd Hnew;
    cbn [mint_loop].
  { intros [= <- <- _]. exists []. split_and!; [constructor..| |simpl; lia].
    by intros ? ?%elem_of_nil. }
  apply NoDup_cons in Hnd as [Hfresh Hnd].
  destruct e as [| | | |r0]; try done.
  destruct (st !! r0) as [[|d0]|] eqn:Hr0; try done.
  destruct (truthy st (get d0 preflabel)) eqn:Hlabel; simpl; [|done].
  assert (Hd0 : d0 ≠ []) by (by intros ->).
  assert (Hkeep : keeps st (self w) (get d0 id_key) method force = Ok None).
  { unfold keeps. destruct Hnew as [->|[Hhead _]%Forall_cons]; [by rewrite andb_false_r|].
    by rewrite (Hhead r0 d0 eq_refl Hr0). }
  rewrite Hkeep.
  destruct (generate urandom st w r0 method preflabel) as [[X|e] w1] eqn:Hgen; [|done].
  intros Hrest.
  apply generate_ok in Hgen as [entity Hgen].
  apply generate_id_registers in Hgen as [Hfree Hreg].
  pose proof (mint_loop_writes _ _ _ _ _ _ _ _ _ _ _ _ Hrest r0) as Hhead.
  rewrite lookup_insert_eq in Hhead. destruct Hhead as (items' & Hst' & _ & Hsame).
  rewrite (Hsame Hfresh) in Hst'.
  assert (Hnew1 : force = true ∨
    Forall (unidentified (<[r0 := ODict (set d0 id_key (VStr X))]> st) id_key) entities).
  { destruct Hnew as [?|[_ Htail]%Forall_cons]; [by left|right].
    apply Forall_forall. intros e He r items -> Hr.
    assert (r ≠ r0) by (by intros ->).
    rewrite lookup_insert_ne in Hr by done. rewrite truthy_write by done.
    exact (proj1 (Forall_forall _ _) Htail _ He r items eq_refl Hr). }
  destruct (IH (S i) _ w1 (S n) Hnd Hnew1 Hrest) as (ids & Hids & Hndids & Hout & ->).
  exists (X :: ids). split_and!.
  - constructor; [|done]. exists r0, (set d0 id_key (VStr X)).
    split_and!; [done..|]. apply shared_get_set_eq.
  - constructor; [|done]. intros Hin%Hout. rewrite Hreg in Hin. clear -Hin. set_solver.
  - intros Y [->|Hin%Hout]%elem_of_cons; [done|]. rewrite Hreg in Hin. clear -Hin. set_solver.
  - simpl. lia.
Qed.

(** X21. When the entities of the target list are distinct objects and
    none of them comes with an identifier that counts (or with [--force]),
    a successful run gives every entity an identifier of its own: the
    identifiers are pairwise distinct, and the count of new identifiers is
    the number of entities. *)
Theorem mint_distinct_objects (st : store) (yaml_root : nat) target_name namespace id_key
    method force preflabel root l entities (st' : store) n :
  st !! yaml_root = Some (ODict root) →
  get root target_name = VRef l →
  st !! l = Some (OList entities) →
  NoDup entities →
  force = true ∨ Forall (unidentified st id_key) entities →
  mint urandom st yaml_root target_name namespace id_key method force preflabel
  = Done (st', n) →
  ∃ ids, Forall2 (id_in st' id_key) entities ids ∧ NoDup ids ∧ n = length entities.
Proof.
  intros Hroot Hl Hentities Hnd Hnew. unfold mint. rewrite Hroot.
  destruct (has_key root target_name); [|done]. simpl. rewrite Hl, Hentities.
  destruct (mint_loop _ _ _ _ _ _ _ _ _ _) as [[[st1 n1] w1]|f] eqn:Hloop; [|done].
  intros [= <- <-].
  destruct (mint_loop_distinct _ _ _ _ _ _ _ _ _ _ _ _ Hnd Hnew Hloop)
    as (ids & Hids & Hndids & _ & ->).
  exists ids. done.
Qed.

End MintSharedFacts.

(** ** Cleaning, then splitting *)
Section Pipeline.
Import Rdf.

Variable initial_namespaces : gmap string string.
Variable sequence : gset triple → list triple.
Hypothesis sequence_perm : ∀ X, sequence X ≡ₚ elements X.




End Pipeline.

(** ** The cleaning command *)
Section CleanCliFacts.
Import Rdf CleanCli.

Variable STRLANG : term → term → bind_outcome.
Variable initial_namespaces : gmap string string.
Variable sequence : gset triple → list triple.
Hypothesis sequence_perm : ∀ X, sequence X ≡ₚ elements X.
Variable normalize : string → string.
Variable iterate : gset string → list string.

Lemma write_assertions_spec (out : string) (h : heap) pairs (fs : files) (n : nat) :
  let fs' := (write_assertions normalize out h pairs fs n).1 in
  (write_assertions normalize out h pairs fs n).2 = (n + length pairs)%nat ∧
  (∀ p, (∀ pr, pr ∈ pairs → file_of normalize out pr ≠ p) → fs' !! p = fs !! p) ∧
  (∀ l1 pr l2, pairs = l1 ++ pr :: l2 →
     (∀ pr', pr' ∈ l2 → file_of normalize out pr' ≠ file_of normalize out pr) →
     fs' !! file_of normalize out pr = Some (h !!! pr.2)).
Proof.
  revert fs n. induction pairs as [|[tid a] pairs IH]; intros fs n; simpl.
  { split_and!; [lia|done|]. intros [|??] ?? [=]. }
  destruct (IH (serialize_graph normalize fs (h !!! a) (output_path out tid)) (S n))
    as (Hn & Hframe & Hlast).
  split_and!.
  - rewrite Hn. lia.
  - intros p Hp. rewrite Hframe.
    + unfold serialize_graph. rewrite lookup_insert_ne; [done|].
      apply (Hp (tid, a)). left.
    + intros pr Hpr. apply Hp. by right.
  - intros l1 pr l2 Heq Hl2. destruct l1 as [|pr1 l1]; simplify_eq/=.
    + rewrite Hframe; [|done]. unfold serialize_graph, file_of. simpl.
      by rewrite lookup_insert_eq.
    + exact (Hlast l1 pr l2 eq_refl Hl2).
Qed.

(** X24. When the command succeeds, the counter it reports is the number
    of pairs the splitter yields (one per subclass edge), not the number of
    files: a file is written per pair at the path made of the output
    folder and the term identifier, a later pair with the same path
    overwrites an earlier one, and files at other paths are as before. *)
Theorem cli_files (h : heap) (g : nat) (fs : files) ns out parent subclasses
    (h' : heap) (fs' : files) (counter : nat) :
  cli STRLANG initial_namespaces sequence normalize iterate h g fs ns out parent subclasses
  = Ok (h', fs', counter) →
  ∃ cleaned pairs,
    clean_graph STRLANG (h !!! g) ns property_map = Ok cleaned ∧
    split_into_assertions initial_namespaces sequence g (<[g := cleaned]> h)
      (iterate (parent_classes parent subclasses)) = (pairs, h') ∧
    counter = length pairs ∧
    (∀ p, (∀ pr, pr ∈ pairs → file_of normalize out pr ≠ p) → fs' !! p = fs !! p) ∧
    (∀ l1 pr l2, pairs = l1 ++ pr :: l2 →
       (∀ pr', pr' ∈ l2 → file_of normalize out pr' ≠ file_of normalize out pr) →
       fs' !! file_of normalize out pr = Some (h' !!! pr.2)).
Proof.
  unfold cli.
  destruct (clean_graph STRLANG (h !!! g) ns property_map) as [cleaned|] eqn:Hclean; [|done].
  destruct (split_into_assertions _ _ _ _) as [pairs h1] eqn:Hsplit.
  pose proof (write_assertions_spec out h1 pairs fs 0) as (Hn & Hframe & Hlast).
  destruct (write_assertions normalize out h1 pairs fs 0) as [fs1 n1]. simpl in *.
  intros [= <- <- <-]. exists cleaned, pairs. split_and!; done.
Qed.

End CleanCliFacts.

(** ** Publishing a sequence of assertions *)
Section NanopubFacts.
Import Rdf Nanopub.

Variable world : Type.
Variable sign : world → option Graph → result (option string) * world.

Lemma publish_loop_dry_run publish publish' (w : world) pairs np_uris :
  publish_loop sign publish w pairs true np_uris
  = publish_loop sign publish' w pairs true np_uris.
Proof.
  revert w np_uris. induction pairs as [|[statement [u|]] pairs IH]; intros w np_uris;
    simpl; [done..|].
  destruct (sign w statement) as [[[np_uri|]|e] w1]; simpl; [|done..].
  apply IH.
Qed.

Lemma publish_loop_length publish (w w' : world) pairs dry_run np_uris uris :
  publish_loop sign publish w pairs dry_run np_uris = (Ok uris, w') →
  length uris = (length np_uris + length pairs)%nat.
Proof.
  revert w np_uris. induction pairs as [|[statement u] pairs IH]; intros w np_uris; simpl.
  { intros [= <- _]. rewrite length_reverse. lia. }
  destruct (publish_single sign publish w statement u dry_run) as [[np_uri|e] w1];
    [|done].
  intros H. apply IH in H. simpl in H. lia.
Qed.

Lemma zip_longest_nil_r {A B} (l : list A) :
  length (zip_longest l (@nil B)) = length l.
Proof. induction l; simpl; congruence. Qed.

(** X25. Superseding is not implemented: with a non-empty list of URIs to
    supersede, [publish_sequence] raises [NotImplementedError] at the first
    pair, whatever the statements and the dry-run flag are, before anything
    is signed or published. *)
Theorem publish_supersedes_unsupported publish (w : world) to_publish u us dry_run :
  publish_sequence sign publish w to_publish (Some (u :: us)) dry_run
  = (Raise NotImplementedError, w).
Proof. unfold publish_sequence. by destruct to_publish. Qed.

(** X26. A dry run never calls [publish]: its result and its effects are
    the same whatever publishing would do. *)
Theorem publish_dry_run publish publish' (w : world) to_publish supersedes :
  publish_sequence sign publish w to_publish supersedes true
  = publish_sequence sign publish' w to_publish supersedes true.
Proof. apply publish_loop_dry_run. Qed.

(** X27. When [publish_sequence] returns, nothing was to be superseded and
    it returns one URI for each statement. *)
Theorem publish_one_uri_each publish (w w' : world) to_publish supersedes dry_run uris :
  publish_sequence sign publish w to_publish supersedes dry_run = (Ok uris, w') →
  (supersedes = None ∨ supersedes = Some []) ∧ length uris = length to_publish.
Proof.
  destruct supersedes as [[|u us]|].
  - intros H. split; [by right|]. apply publish_loop_length in H.
    by rewrite zip_longest_nil_r in H.
  - unfold publish_sequence. by destruct to_publish.
  - intros H. split; [by left|]. apply publish_loop_length in H.
    by rewrite zip_longest_nil_r in H.
Qed.

End NanopubFacts.

(** ** Aggregating vocabulary files *)
Section YamlConcatFacts.
Import Json MintCli YamlConcat.

Lemma get_missing (d : dict) (k : string) : has_key d k = false → get d k = Null.
Proof.
  induction d as [|[k' v] d IH]; simpl; [done|].
  destruct (String.eqb k' k); simpl; [done|]. exact IH.
Qed.

Lemma concat_loop_spec (target : string) (inputs : list (option value)) :
  ∀ i collected container_id collected' container_id',
  concat_loop target i inputs collected container_id = inr (collected', container_id') →
  collected' = collected ++ concat (target_list target <$> inputs) ∧
  Forall (λ file, is_Some (mapping_of file)) inputs ∧
  match container_id with
  | Some cid =>
      container_id' = Some cid ∧
      Forall (λ v, py_eq v cid = true) (declared_ids inputs)
  | None =>
      match declared_ids inputs with
      | [] => container_id' = None
      | first :: rest =>
          container_id' = Some first ∧ Forall (λ v, py_eq v first = true) rest
      end
  end.
Proof.
  induction inputs as [|[loaded|] inputs IH]; intros i collected cid collected' cid'.
  { simpl. intros [= <- <-]. rewrite app_nil_r. by destruct cid. }
  2: done.
  cbn [concat_loop]. unfold declared_ids in *. cbn [fmap list_fmap concat].
  unfold target_list at 1, file_id at 1 3, mapping_of.
  destruct (or_empty loaded) as [| | | | |data] eqn:Hload; try done.
  assert (∀ cid1,
    (if has_key data target
     then match get data target with
          | List subclasses =>
              concat_loop target (S i) inputs (collected ++ subclasses) cid1
          | _ => inl (TargetNotAList i)
          end
     else concat_loop target (S i) inputs collected cid1) = inr (collected', cid') →
    concat_loop target (S i) inputs
      (collected ++ match get data target with List l => l | _ => [] end) cid1
    = inr (collected', cid')) as Hstep.
  { intros cid1. destruct (has_key data target) eqn:Hkey.
    - by destruct (get data target).
    - rewrite (get_missing _ _ Hkey), app_nil_r. done. }
  assert (Forall (λ file, is_Some (mapping_of file)) (Some loaded :: inputs)
          ↔ Forall (λ file, is_Some (mapping_of file)) inputs) as Hall.
  { rewrite Forall_cons. unfold mapping_of at 1. rewrite Hload. naive_solver. }
  fold (mapping_of) in *.
  destruct cid as [cid|].
  - destruct (truthy (get data "id")) eqn:Htrue; cbn [andb List.filter].
    + rewrite Htrue. destruct (py_eq (get data "id") cid) eqn:Heq; cbn [negb]; [|done].
      intros H. apply Hstep, IH in H as (-> & ? & -> & ?).
      rewrite <-(assoc_L (++)). split_and!; [done|by constructor; [rewrite Hload|]|done|].
      by constructor.
    + rewrite Htrue. intros H. apply Hstep, IH in H as (-> & ? & -> & ?).
      rewrite <-(assoc_L (++)). split_and!; [done|by constructor; [rewrite Hload|]|done..].
  - destruct (truthy (get data "id")) eqn:Htrue; cbn [List.filter]; rewrite Htrue.
    + intros H. apply Hstep, IH in H as (-> & ? & -> & ?).
      rewrite <-(assoc_L (++)). split_and!; [done|by constructor; [rewrite Hload|]|done..].
    + intros H. apply Hstep, IH in H as (-> & ? & ?).
      rewrite <-(assoc_L (++)). split_and!; [done|by constructor; [rewrite Hload|]|done].
Qed.

Lemma concat_loop_returns (target : string) (inputs : list (option value)) :
  ∀ i collected container_id,
  Forall (λ file, ∃ data, mapping_of file = Some data ∧
            (has_key data target = true → ∃ l, get data target = List l)) inputs →
  match container_id with
  | Some cid => Forall (λ v, py_eq v cid = true) (declared_ids inputs)
  | None =>
      match declared_ids inputs with
      | [] => True
      | first :: rest => Forall (λ v, py_eq v first = true) rest
      end
  end →
  ∃ r, concat_loop target i inputs collected container_id = inr r.
Proof.
  induction inputs as [|file inputs IH]; intros i collected cid Hall Hids.
  { by eexists. }
  apply Forall_cons in Hall as [(data & Hmap & Hlist) Hall].
  destruct file as [loaded|]; [|done].
  unfold declared_ids in *. cbn [fmap list_fmap] in Hids.
  unfold file_id at 1 3 in Hids. rewrite Hmap in Hids.
  unfold mapping_of in Hmap. cbn [concat_loop].
  destruct (or_empty loaded) as [| | | | |data'] eqn:Hload; try done.
  injection Hmap as ->.
  assert (∀ cid1,
    (∃ r, concat_loop target (S i) inputs
            (collected ++ match get data target with List l => l | _ => [] end) cid1
          = inr r) →
    ∃ r, (if has_key data target
          then match get data target with
               | List subclasses =>
                   concat_loop target (S i) inputs (collected ++ subclasses) cid1
               | _ => inl (TargetNotAList i)
               end
          else concat_loop target (S i) inputs collected cid1) = inr r) as Hstep.
  { intros cid1. destruct (has_key data target) eqn:Hkey.
    - destruct Hlist as [l ->]; done.
    - by rewrite (get_missing _ _ Hkey), app_nil_r. }
  destruct cid as [cid|].
  - cbn [List.filter] in Hids.
    destruct (truthy (get data "id")) eqn:Htrue; cbn [andb].
    + apply Forall_cons in Hids as [-> Hids]. cbn [negb]. apply Hstep. by apply IH.
    + apply Hstep. by apply IH.
  - cbn [List.filter] in Hids.
    destruct (truthy (get data "id")) eqn:Htrue; apply Hstep; by apply IH.
Qed.

Lemma declared_ids_truthy (inputs : list (option value)) (v : value) :
  In v (declared_ids inputs) → truthy v = true.
Proof. unfold declared_ids. intros H. by apply List.filter_In in H as [_ ?]. Qed.

(** X28. When the aggregation succeeds, every input is a mapping and the
    list written under the target key is the concatenation of the target
    lists of the inputs, in the order of the sorted paths; a file that is
    empty or has no such key contributes nothing. (With the target [id] the
    container identifier is written over the list.) *)
Theorem concat_collects (inputs : list (option value)) (target : string) (combined : dict) :
  cli inputs target = inr combined →
  target ≠ "id" →
  Forall (λ file, is_Some (mapping_of file)) inputs ∧
  get combined target = List (concat (target_list target <$> inputs)).
Proof.
  unfold cli. intros H Hne.
  assert (match concat_loop target 0 inputs [] None with
          | inl f => inl f
          | inr (collected, container_id) =>
              inr (match container_id with
                   | Some cid =>
                       if truthy cid then set [(target, List collected)] "id" cid
                       else [(target, List collected)]
                   | None => [(target, List collected)]
                   end)
          end = inr combined) as H' by (by destruct inputs).
  clear H. destruct (concat_loop target 0 inputs [] None) as [|[collected cid]] eqn:Hloop;
    [done|].
  apply concat_loop_spec in Hloop as (-> & Hall & _). split; [done|].
  apply (inj inr) in H' as <-. cbn [app].
  assert (get [(target, List (concat (target_list target <$> inputs)))] target
          = List (concat (target_list target <$> inputs))) as Hget.
  { simpl. by rewrite String.eqb_refl. }
  destruct cid as [cid|]; [|done]. destruct (truthy cid); [|done].
  by rewrite get_set_ne.
Qed.

(** X29. When the aggregation succeeds, the identifier written is the first
    one a file declares, and every later declared identifier is equal to it;
    when no file declares one, the output has the target key only. *)
Theorem concat_container_id (inputs : list (option value)) (target : string)
    (combined : dict) :
  cli inputs target = inr combined →
  match declared_ids inputs with
  | [] => combined = [(target, List (concat (target_list target <$> inputs)))]
  | first :: rest =>
      get combined "id" = first ∧ Forall (λ v, py_eq v first = true) rest
  end.
Proof.
  unfold cli. intros H.
  assert (match concat_loop target 0 inputs [] None with
          | inl f => inl f
          | inr (collected, container_id) =>
              inr (match container_id with
                   | Some cid =>
                       if truthy cid then set [(target, List collected)] "id" cid
                       else [(target, List collected)]
                   | None => [(target, List collected)]
                   end)
          end = inr combined) as H' by (by destruct inputs).
  clear H. destruct (concat_loop target 0 inputs [] None) as [|[collected cid]] eqn:Hloop;
    [done|].
  apply concat_loop_spec in Hloop as (-> & _ & Hids). apply (inj inr) in H' as <-. cbn [app].
  pose proof (declared_ids_truthy inputs) as Htrue.
  destruct (declared_ids inputs) as [|first rest].
  - by rewrite Hids.
  - destruct Hids as [-> Hrest]. rewrite (Htrue first) by by left.
    split; [apply get_set_eq|done].
Qed.

(** X30. The aggregation refuses for its stated reasons only: with at least
    one input, every input a mapping whose target, when it has one, is a
    list, and all declared identifiers equal to the first, it writes an
    output. *)
Theorem concat_succeeds (inputs : list (option value)) (target : string) :
  inputs ≠ [] →
  Forall (λ file, ∃ data, mapping_of file = Some data ∧
            (has_key data target = true → ∃ l, get data target = List l)) inputs →
  match declared_ids inputs with
  | [] => True
  | first :: rest => Forall (λ v, py_eq v first = true) rest
  end →
  ∃ combined, cli inputs target = inr combined.
Proof.
  intros Hne Hall Hids. unfold cli.
  destruct (concat_loop_returns target inputs 0 [] None Hall Hids) as [[collected cid] ->].
  destruct inputs; [done|]. by eexists.
Qed.

End YamlConcatFacts.

(** ** The further properties at sample inputs *)
Example vocabulary_is_minted :
  MintCli.mint Samples.counting Samples.vocabulary "terms" Samples.term_ns "id" "hash"
    false "name"
  = MintCli.Done (Samples.vocabulary_minted, 2%nat).
Proof. vm_compute. reflexivity. Qed.

(** The anchored entity is minted once, and shows its identifier under
    [proto] too. *)
Example anchored_is_minted :
  MintShared.mint Samples.counting Samples.anchored 0 "terms" Samples.term_ns "id" "hash"
    false "name"
  = MintShared.Done (Samples.anchored_minted, 2%nat).
Proof. evaluate. Qed.

(** An entity listed twice is minted at its first place and kept at its
    second: one new identifier for two places. *)
Example repeated_is_minted_once :
  MintShared.mint Samples.counting Samples.repeated 0 "terms" Samples.term_ns "id" "hash"
    false "name"
  = MintShared.Done (Samples.repeated_minted, 1%nat).
Proof. evaluate. Qed.



Example pipeline_is_written :
  CleanCli.cli Rdf.Builtin_STRLANG ∅ elements id elements Samples.pipeline_heap 0 ∅
    Samples.base_ns "out" ":Parent" None
  = Ok (Samples.pipeline_split_heap, Samples.pipeline_files, 1%nat).
Proof. evaluate. Qed.

Example fragments_are_combined :
  YamlConcat.cli Samples.fragments "terms" = inr Samples.fragments_combined.
Proof. vm_compute. reflexivity. Qed.

Section MintWitnesses.
Import Py Json Mint MintCli Samples.

Lemma is_valid_id_accepts_witness :
  is_valid_id (init term_ns None) "http://example.org/term/ec049d31d6" "hash" = Ok true ↔
  ∃ u tail,
    "http://example.org/term/ec049d31d6" = identifier_of (init term_ns None) (u +:+ tail) ∧
    len u = 10%nat ∧ all_hex u = true ∧ (tail = "" ∨ tail = newline).
Proof. apply is_valid_id_accepts. reflexivity. Defined.

Lemma generate_id_other_method_witness :
  is_valid_id (self (generate_id counting fresh_world acetone "hash" true 10 "name").2)
    "http://example.org/term/f12530d320" "uuid" = Ok false.
Proof.
  apply (generate_id_other_method counting fresh_world acetone "hash" true 10 "name"
           "http://example.org/term/f12530d320"
           (generate_id counting fresh_world acetone "hash" true 10 "name").2 "uuid" 8%nat).
  - vm_compute. reflexivity.
  - reflexivity.
  - discriminate.
Defined.

Lemma generate_id_hash_deterministic_witness :
  "http://example.org/term/f12530d320"
  = identifier_of (self fresh_world) (Py.take 10 (hash_dict acetone)).
Proof.
  apply (generate_id_hash_deterministic counting fresh_world acetone true 10 "name"
           "http://example.org/term/f12530d320"
           (generate_id counting fresh_world acetone "hash" true 10 "name").2).
  vm_compute. reflexivity.
Defined.

Lemma generate_id_takes_available_witness :
  is_id_available (self fresh_world) "http://example.org/term/f12530d320" = true ∧
  is_id_available (self (generate_id counting fresh_world acetone "hash" true 10 "name").2)
    "http://example.org/term/f12530d320" = false ∧
  ∀ Y, Y ≠ "http://example.org/term/f12530d320" →
    is_id_available (self (generate_id counting fresh_world acetone "hash" true 10 "name").2) Y
    = is_id_available (self fresh_world) Y.
Proof.
  apply (generate_id_takes_available counting fresh_world acetone "hash" 10 "name").
  vm_compute. reflexivity.
Defined.

Lemma generate_id_no_budget_witness :
  generate_id counting fresh_world acetone "uuid" true 0 "name"
  = (Raise (exhausted acetone 0 "name"), fresh_world).
Proof. apply generate_id_no_budget. lia. Defined.

Lemma generate_id_unknown_method_witness :
  generate_id counting fresh_world acetone "slug" true 10 "name"
  = (Raise (ValueError ("Unknown method: " +:+ "slug" +:+
                        ". Available methods: uuid, hash, sequential, slug")), fresh_world).
Proof. apply generate_id_unknown_method; [lia|discriminate..]. Defined.

Lemma hash_dict_key_order_witness :
  hash_dict benzene = hash_dict [("cas", Int 71432); ("name", Str "Benzene")].
Proof.
  apply hash_dict_key_order.
  - simpl. apply NoDup_cons. split; [|apply NoDup_singleton].
    intros H. apply list_elem_of_singleton in H. discriminate H.
  - apply perm_swap.
Defined.

Lemma mint_all_valid_witness :
  ∃ out, get vocabulary_minted "terms" = List out ∧
    Forall (λ e, ∃ d key, e = Dict d ∧ get d "id" = Str key ∧
                          is_valid_id (init term_ns None) key "hash" = Ok true) out.
Proof.
  apply (mint_all_valid counting vocabulary "terms" term_ns "id" "hash" false "name"
           vocabulary_minted 2).
  exact vocabulary_is_minted.
Defined.

Lemma mint_rerun_witness :
  mint (λ _, 0%Z) vocabulary_minted "terms" term_ns "id" "hash" false "name"
  = Done (vocabulary_minted, 0%nat).
Proof.
  apply (mint_rerun counting (λ _, 0%Z) vocabulary "terms" term_ns "id" "hash" false "name"
           vocabulary_minted 2).
  exact vocabulary_is_minted.
Defined.

Lemma mint_refuses_unlabelled_witness :
  ∃ f, mint counting vocabulary_nameless "terms" term_ns "id" "hash" false "name" = Failed f.
Proof.
  apply (mint_refuses_unlabelled counting vocabulary_nameless "terms" term_ns "id" "hash"
           false "name" nameless).
  - reflexivity.
  - apply Exists_cons_tl, Exists_cons_hd. intros d [= <-]. reflexivity.
Defined.

End MintWitnesses.

Section MintSharedWitnesses.
Import Json Mint MintShared Samples.


Lemma mint_distinct_objects_witness :
  ∃ ids, Forall2 (id_in anchored_minted "id") [VRef 1; VRef 3] ids ∧ NoDup ids ∧
         2%nat = length [VRef 1; VRef 3].
Proof.
  apply (mint_distinct_objects counting anchored 0 "terms" term_ns "id" "hash" false "name"
           [("proto", VRef 1); ("terms", VRef 2)] 2 [VRef 1; VRef 3] anchored_minted 2).
  - vm_compute. reflexivity.
  - reflexivity.
  - vm_compute. reflexivity.
  - apply NoDup_cons. split; [|apply NoDup_singleton].
    intros Hin. apply list_elem_of_singleton in Hin. discriminate Hin.
  - right. apply Forall_cons. split; [|apply Forall_cons; split; [|apply Forall_nil_2]].
    + intros r items [= <-] Hr. vm_compute in Hr. injection Hr as <-. reflexivity.
    + intros r items [= <-] Hr. vm_compute in Hr. injection Hr as <-. reflexivity.
  - exact anchored_is_minted.
Defined.

End MintSharedWitnesses.

Section RdfWitnesses.
Import Rdf CleanCli Samples.




Lemma split_one_pair_per_edge_witness :
  ∃ segments : list (list (string * nat)),
    [("A", 1%nat); ("B", 2%nat)] = concat segments ∧
    Forall2 (λ clss segment,
      segment.*1 ≡ₚ term_id <$> elements (direct_subclasses ontology (parent_of ontology clss)))
      ["ex:Parent"] segments.
Proof.
  apply (split_one_pair_per_edge ∅ elements (λ X, reflexivity (elements X)) 0 ontology_heap
           ontology ["ex:Parent"] [("A", 1%nat); ("B", 2%nat)] split_heap).
  - apply lookup_singleton_eq.
  - exact ontology_is_split.
Defined.

Lemma split_assertion_shape_witness :
  ∃ A s clss,
    split_heap !! 1%nat = Some A ∧ "A" = term_id s ∧
    namespaces A = ∅ ∧
    triples A ⊆ triples ontology ∧
    (∀ x, x ∈ triples A → x.1.1 = s) ∧
    clss ∈ ["ex:Parent"] ∧
    (s, subClassOf, Node (URIRef (parent_of ontology clss))) ∈ triples A.
Proof.
  apply (split_assertion_shape ∅ elements (λ X, reflexivity (elements X)) 0 ontology_heap
           ontology ["ex:Parent"] [("A", 1%nat); ("B", 2%nat)] split_heap "A" 1%nat).
  - apply lookup_singleton_eq.
  - exact ontology_is_split.
  - left.
Defined.

Lemma split_fresh_graphs_witness :
  NoDup [("A", 1%nat); ("B", 2%nat)].*2 ∧
  ∀ a, a ∈ [("A", 1%nat); ("B", 2%nat)].*2 → ontology_heap !! a = None ∧ a ≠ 0%nat.
Proof.
  apply (split_fresh_graphs ∅ elements 0 ontology_heap ontology ["ex:Parent"]
           [("A", 1%nat); ("B", 2%nat)] split_heap).
  - apply lookup_singleton_eq.
  - exact ontology_is_split.
Defined.


Lemma cli_files_witness :
  ∃ cleaned pairs,
    clean_graph Builtin_STRLANG (pipeline_heap !!! 0%nat) base_ns property_map = Ok cleaned ∧
    split_into_assertions ∅ elements 0 (<[0%nat := cleaned]> pipeline_heap)
      (elements (parent_classes ":Parent" None)) = (pairs, pipeline_split_heap) ∧
    1%nat = length pairs ∧
    (∀ p, (∀ pr, pr ∈ pairs → file_of id "out" pr ≠ p) →
          pipeline_files !! p = (∅ : files) !! p) ∧
    (∀ l1 pr l2, pairs = l1 ++ pr :: l2 →
       (∀ pr', pr' ∈ l2 → file_of id "out" pr' ≠ file_of id "out" pr) →
       pipeline_files !! file_of id "out" pr = Some (pipeline_split_heap !!! pr.2)).
Proof.
  apply (cli_files Builtin_STRLANG ∅ elements id elements pipeline_heap 0 ∅ base_ns "out"
           ":Parent" None).
  exact pipeline_is_written.
Defined.

End RdfWitnesses.

Section ServiceWitnesses.
Import Rdf Nanopub Json MintCli YamlConcat Samples.

Lemma publish_one_uri_each_witness :
  (@None (list string) = None ∨ @None (list string) = Some []) ∧
  length [np_uri; np_uri] = length [translated_cleaned; dangling].
Proof.
  apply (publish_one_uri_each nat counting_sign counting_publish 0%nat 2%nat
           [translated_cleaned; dangling] None false [np_uri; np_uri]).
  reflexivity.
Defined.

Lemma concat_collects_witness :
  Forall (λ file, is_Some (mapping_of file)) fragments ∧
  get fragments_combined "terms" = List (concat (target_list "terms" <$> fragments)).
Proof.
  apply (concat_collects fragments "terms" fragments_combined).
  - exact fragments_are_combined.
  - discriminate.
Defined.

Lemma concat_container_id_witness :
  get fragments_combined "id" = Str "chemicals" ∧
  Forall (λ v, py_eq v (Str "chemicals") = true) [Str "chemicals"].
Proof.
  apply (concat_container_id fragments "terms" fragments_combined).
  exact fragments_are_combined.
Defined.

Lemma concat_succeeds_witness :
  ∃ combined, cli fragments "terms" = inr combined.
Proof.
  apply concat_succeeds.
  - discriminate.
  - repeat apply Forall_cons_2; [| |  |apply Forall_nil_2];
      (eexists; split; [reflexivity|]); [by eexists|discriminate|by eexists].
  - repeat constructor.
Defined.

End ServiceWitnesses.
